(** * Validation scripts of the Vagabond RPG content pack

    A shallow embedding of [scripts/validate_perks.py],
    [scripts/validate_spells.py] and [scripts/validate_weapons.py], and the
    properties of their parsers, normaliser and comparators.

    Python [str] values are lists of Unicode code points.  The builtins the
    scripts call ([str.strip], [str.split], [str.replace], [int], the two
    regular expressions, ...) are written out in module [Py]; the three scripts
    follow in the modules [Perks], [Spells] and [Weapons]. *)

From Stdlib Require Import NArith ZArith QArith List String Ascii Bool Lia.
From Stdlib Require Import Permutation Sorted.
Import ListNotations.

Close Scope Q_scope.

(** ** Python strings and the builtins used by the scripts *)

Module Py.

Definition codepoint := N.
Definition pystr := list codepoint.

(** An ASCII literal as a Python string. *)
Definition str (s : string) : pystr :=
  List.map N_of_ascii (list_ascii_of_string s).

(** The line feed. *)
Definition newline : pystr := [10%N].

Fixpoint eqb (a b : pystr) : bool :=
  match a, b with
  | [], [] => true
  | x :: a', y :: b' => N.eqb x y && eqb a' b'
  | _, _ => false
  end.

(** Truthiness of a string: [if s:] holds for the non-empty ones. *)
Definition truthy (s : pystr) : bool :=
  match s with [] => false | _ :: _ => true end.

(** [x in l] for a list of strings. *)
Definition mem (x : pystr) (l : list pystr) : bool := existsb (eqb x) l.

(** [str.isspace] on one code point: the code points with the Unicode
    White_Space property or bidirectional class WS, B or S. *)
Definition whitespace_table : list codepoint :=
  [9; 10; 11; 12; 13; 28; 29; 30; 31; 32; 133; 160; 5760;
   8192; 8193; 8194; 8195; 8196; 8197; 8198; 8199; 8200; 8201; 8202;
   8232; 8233; 8239; 8287; 12288]%N.

Definition isspace (c : codepoint) : bool := existsb (N.eqb c) whitespace_table.

(** Zero digits of the Unicode decimal-digit ranges (category Nd, Unicode
    14.0 as shipped with CPython 3.11); each range holds the ten digits in
    order.  This is what [\d] matches and what [int] converts. *)
Definition decimal_zeros : list codepoint :=
  [48; 1632; 1776; 1984; 2406; 2534; 2662; 2790; 2918; 3046; 3174; 3302;
   3430; 3558; 3664; 3792; 3872; 4160; 4240; 6112; 6160; 6470; 6608; 6784;
   6800; 6992; 7088; 7232; 7248; 42528; 43216; 43264; 43472; 43504; 43600;
   44016; 65296; 66720; 68912; 69734; 69872; 69942; 70096; 70384; 70736;
   70864; 71248; 71360; 71472; 71904; 72016; 72784; 73040; 73120; 92768;
   92864; 93008; 120782; 120792; 120802; 120812; 120822; 123200; 123632;
   125264; 130032]%N.

Fixpoint decimal_in (zeros : list codepoint) (c : codepoint) : option N :=
  match zeros with
  | [] => None
  | z :: zs =>
      if (N.leb z c && N.leb c (z + 9))%N then Some (c - z)%N
      else decimal_in zs c
  end.

(** The decimal value of a code point, if it is a decimal digit. *)
Definition decimal (c : codepoint) : option N := decimal_in decimal_zeros c.

Definition isdecimal (c : codepoint) : bool :=
  match decimal c with Some _ => true | None => false end.

(** [s.startswith(p)] *)
Fixpoint startswith (p s : pystr) : bool :=
  match p, s with
  | [], _ => true
  | x :: p', y :: s' => N.eqb x y && startswith p' s'
  | _ :: _, [] => false
  end.

(** [s.endswith(p)] *)
Definition endswith (p s : pystr) : bool := startswith (rev p) (rev s).

(** [p in s] for strings: some suffix of [s] starts with [p]. *)
Fixpoint contains (p s : pystr) : bool :=
  startswith p s || match s with [] => false | _ :: r => contains p r end.

(** [s.lstrip()], [s.rstrip()] and [s.strip()] *)
Fixpoint lstrip (s : pystr) : pystr :=
  match s with
  | [] => []
  | c :: r => if isspace c then lstrip r else s
  end.

Fixpoint rstrip (s : pystr) : pystr :=
  match s with
  | [] => []
  | c :: r =>
      match rstrip r with
      | [] => if isspace c then [] else [c]
      | r' => c :: r'
      end
  end.

Definition strip (s : pystr) : pystr := rstrip (lstrip s).

(** [s.split()]: the maximal runs of non-whitespace code points. *)
Definition starts_word (s : pystr) : bool :=
  match s with [] => false | d :: _ => negb (isspace d) end.

Fixpoint words (s : pystr) : list pystr :=
  match s with
  | [] => []
  | c :: r =>
      if isspace c then words r
      else if starts_word r then
        match words r with
        | w :: ws => (c :: w) :: ws
        | [] => [[c]]
        end
      else [c] :: words r
  end.

(** [sep.join(l)] *)
Fixpoint join (sep : pystr) (l : list pystr) : pystr :=
  match l with
  | [] => []
  | [w] => w
  | w :: l' => w ++ sep ++ join sep l'
  end.

(** [s.split(sep)] for a non-empty separator: the fields between the
    leftmost non-overlapping occurrences of [sep].  [skip] counts the code
    points of an occurrence that are still to be passed over.  The same
    function is [re.split] for a pattern that is a literal. *)
Fixpoint split_from (sep : pystr) (skip : nat) (s : pystr) : list pystr :=
  match s with
  | [] => [[]]
  | c :: r =>
      match skip with
      | S k => split_from sep k r
      | O =>
          if startswith sep s then [] :: split_from sep (List.length sep - 1) r
          else
            match split_from sep 0 r with
            | w :: ws => (c :: w) :: ws
            | [] => [[c]]
            end
      end
  end.

Definition split (sep s : pystr) : list pystr := split_from sep 0 s.

(** [s.replace(old, new)] for a non-empty [old]. *)
Fixpoint replace_from (old new : pystr) (skip : nat) (s : pystr) : pystr :=
  match s with
  | [] => []
  | c :: r =>
      match skip with
      | S k => replace_from old new k r
      | O =>
          if startswith old s
          then new ++ replace_from old new (List.length old - 1) r
          else c :: replace_from old new 0 r
      end
  end.

Definition replace (old new s : pystr) : pystr := replace_from old new 0 s.

(** [s.count(c)] for a one-character [c]. *)
Definition count (c : codepoint) (s : pystr) : nat :=
  List.length (filter (N.eqb c) s).

(** [l[1:-1]] *)
Definition slice_1_m1 {A} (l : list A) : list A := removelast (tl l).

(** [str.lower] follows the Unicode case mappings (with their
    context-sensitive rules); the scripts only use it to build keys, so it
    is kept as an interface. *)
Class Lower := lower : pystr -> pystr.

(** The instance that lowers the ASCII letters and keeps every other code
    point; it agrees with [str.lower] on ASCII text. *)
Definition ascii_lower_cp (c : codepoint) : codepoint :=
  if (N.leb 65 c && N.leb c 90)%N then (c + 32)%N else c.

Definition ascii_lower : Lower := List.map ascii_lower_cp.

(** Lexicographic order on code points: [a <= b] on strings. *)
Fixpoint leb (a b : pystr) : bool :=
  match a, b with
  | [], _ => true
  | _ :: _, [] => false
  | x :: a', y :: b' =>
      if N.ltb x y then true else if N.ltb y x then false else leb a' b'
  end.

(** [sorted(l)] on strings. *)
Fixpoint insert_sorted (x : pystr) (l : list pystr) : list pystr :=
  match l with
  | [] => [x]
  | y :: l' => if leb x y then x :: l else y :: insert_sorted x l'
  end.

Fixpoint sorted (l : list pystr) : list pystr :=
  match l with
  | [] => []
  | x :: l' => insert_sorted x (sorted l')
  end.

(** A [dict] keyed by strings.  Python dicts iterate in insertion order, and
    assigning to a key that is present keeps its position. *)
Definition dict (V : Type) := list (pystr * V).

Fixpoint dict_set {V} (k : pystr) (v : V) (d : dict V) : dict V :=
  match d with
  | [] => [(k, v)]
  | (k', v') :: d' =>
      if eqb k k' then (k, v) :: d' else (k', v') :: dict_set k v d'
  end.

Fixpoint dict_get {V} (k : pystr) (d : dict V) : option V :=
  match d with
  | [] => None
  | (k', v') :: d' => if eqb k k' then Some v' else dict_get k d'
  end.

Definition dict_has {V} (k : pystr) (d : dict V) : bool :=
  match dict_get k d with Some _ => true | None => false end.

Definition keys {V} (d : dict V) : list pystr := List.map fst d.

(** A [set] of strings, kept without repetition; [a & b], [a | b] and
    [len]. *)
Fixpoint set_of (l : list pystr) : list pystr :=
  match l with
  | [] => []
  | x :: l' => if mem x l' then set_of l' else x :: set_of l'
  end.

Definition set_inter (a b : list pystr) : list pystr :=
  filter (fun x => mem x b) a.

Definition set_union (a b : list pystr) : list pystr :=
  a ++ filter (fun x => negb (mem x a)) b.

(** [int(s)] in base ten: surrounding whitespace, an optional sign, then
    decimal digits, where single underscores may separate digits.  [None]
    stands for [ValueError].  (The interpreter's configurable limit on the
    number of digits is not part of the model.) *)
Fixpoint int_digits (acc : N) (after_digit : bool) (s : pystr) : option N :=
  match s with
  | [] => if after_digit then Some acc else None
  | c :: r =>
      match decimal c with
      | Some v => int_digits (10 * acc + v)%N true r
      | None =>
          if N.eqb c 95 && after_digit then int_digits acc false r else None
      end
  end.

Definition int (s : pystr) : option Z :=
  match strip s with
  | [] => None
  | c :: r =>
      if N.eqb c 43 then option_map Z.of_N (int_digits 0 false r)
      else if N.eqb c 45
      then option_map (fun n => Z.opp (Z.of_N n)) (int_digits 0 false r)
      else option_map Z.of_N (int_digits 0 false (c :: r))
  end.

(** The search [re.search(r'(\d+)c', s)] for a literal code point [c]:
    [match_digits_then] is the match at the start of [s], with the greedy
    [\d+] giving back digits when the literal does not follow;
    [search_digits_then] tries the positions of [s] from the left.  Both
    return group 1. *)
Fixpoint match_digits_then (c : codepoint) (s : pystr) : option pystr :=
  match s with
  | [] => None
  | d :: r =>
      if isdecimal d then
        match match_digits_then c r with
        | Some g => Some (d :: g)
        | None =>
            match r with
            | x :: _ => if N.eqb x c then Some [d] else None
            | [] => None
            end
        end
      else None
  end.

Fixpoint search_digits_then (c : codepoint) (s : pystr) : option pystr :=
  match match_digits_then c s with
  | Some g => Some g
  | None =>
      match s with
      | [] => None
      | _ :: r => search_digits_then c r
      end
  end.

(** Comparison of exact fractions, for [x < y]. *)
Definition qlt (x y : Q) : bool :=
  (Qnum x * QDen y <? Qnum y * QDen x)%Z.

End Py.

(** ** [scripts/validate_perks.py] *)

Module Perks.
Import Py.

Record perk := {
  name : pystr;
  prerequisite : pystr;
  description : pystr
}.

Definition category_headers : list pystr :=
  [str "Stat-Based Perks (No Training Required)";
   str "Spell-Based Perks";
   str "No Prerequisites"].

Definition prerequisite_marker : pystr := str "**Prerequisite:**".

(** The body of the inner loop of [parse_source_perks]: one line of a block,
    with the pair [(prereq, description_lines)] as state. *)
Definition scan_line (st : pystr * list pystr) (line : pystr)
  : pystr * list pystr :=
  let '(prereq, description_lines) := st in
  if startswith prerequisite_marker line then
    (strip (replace prerequisite_marker [] line), description_lines)
  else if truthy (strip line) && negb (startswith (str "---") line) then
    (prereq, description_lines ++ [line])
  else st.

(** The record of one block, given its lines; [None] where the loop body
    reaches [continue] or skips the assignment. *)
Definition scan_lines (lines : list pystr) : option perk :=
  match lines with
  | [] => None
  | header :: body =>
      let name := strip header in
      if mem name category_headers then None
      else
        let '(prereq, description_lines) := fold_left scan_line body ([], []) in
        let description := strip (join (str " ") description_lines) in
        if truthy name && truthy description then
          Some {| name := name; prerequisite := prereq;
                  description := description |}
        else None
  end.

(** The body of the outer loop: one block, with the dictionary as state. *)
Definition scan_block {L : Lower} (perks : dict perk) (block : pystr) : dict perk :=
  match scan_lines (split newline (strip block)) with
  | Some p => dict_set (lower (name p)) p perks
  | None => perks
  end.

Definition section_marker : pystr := str "## Full Perk Descriptions".

Definition parse_source_perks {L : Lower} (text : pystr) : dict perk :=
  let desc_section :=
    if contains section_marker text
    then nth 1 (split section_marker text) []
    else text in
  let perk_blocks := split (newline ++ str "### ") desc_section in
  fold_left scan_block (tl perk_blocks) [].

(** The substitution [re.sub(r'<[^>]+>', '', text)].  A match starts at a
    [<] that is followed by at least one code point other than [>] and,
    further on, by a [>]; the greedy class stops at the first [>], which
    closes the match.  [opens_tag r] says that a [<] followed by [r] starts
    a match; [inside] is set while the scan is within one. *)
Definition opens_tag (r : pystr) : bool :=
  match r with
  | [] => false
  | d :: r' => negb (N.eqb d 62) && existsb (N.eqb 62) r'
  end.

Fixpoint remove_tags (inside : bool) (s : pystr) : pystr :=
  match s with
  | [] => []
  | c :: r =>
      if inside then remove_tags (negb (N.eqb c 62)) r
      else if N.eqb c 60 && opens_tag r then remove_tags true r
      else c :: remove_tags false r
  end.

Definition normalize_text (text : pystr) : pystr :=
  if negb (truthy text) then []
  else
    let text := remove_tags false text in
    let text := join (str " ") (words text) in
    let text :=
      replace [8221%N] [34%N]
        (replace [8220%N] [34%N] (replace [8217%N] [39%N] text)) in
    strip text.

(** A generated record: the [name] of the JSON object and the
    [description] of its [system] object, when there is one.  Files are
    taken as decoded; the fields carry the JSON types of the pack's
    schema. *)
Record generated := {
  g_name : pystr;
  g_description : option pystr
}.

(** A directory: what [os.listdir] returns, in its order, with the decoded
    content of each file. *)
Definition directory := dict generated.

(** The lines added to [issues] for one file, kept as data: the similarity
    and the two snippets. *)
Inductive issue :=
| DescriptionMismatch (similarity : Q) (source_snippet generated_snippet : pystr).

Inductive discrepancy :=
| NotInSource (perk file : pystr)
| FieldMismatch (perk file : pystr) (issues : list issue)
| Missing (perk : pystr).

Definition json_suffix : pystr := str ".json".

Definition word_set {L : Lower} (desc : pystr) : list pystr :=
  set_of (words (lower desc)).

(** The similarity of two normalised descriptions.  Python divides the two
    lengths as binary64 numbers and compares with the binary64 number
    nearest to 0.9; the outcome of that comparison is the one of the exact
    fractions as long as the union has fewer than 10^15 words, so the
    fraction is kept exact here. *)
Definition jaccard {L : Lower} (src_desc gen_desc : pystr) : Q :=
  let src_words := word_set src_desc in
  let gen_words := word_set gen_desc in
  match src_words, gen_words with
  | _ :: _, _ :: _ =>
      Qmake (Z.of_nat (List.length (set_inter src_words gen_words)))
            (Pos.of_nat (List.length (set_union src_words gen_words)))
  | _, _ => 0%Q
  end.

Definition description_issues {L : Lower} (src : perk) (gen : generated)
  : list issue :=
  let src_desc := normalize_text (description src) in
  let gen_desc :=
    normalize_text (match g_description gen with Some d => d | None => [] end) in
  if negb (eqb src_desc gen_desc) then
    let similarity := jaccard src_desc gen_desc in
    if qlt similarity (9 # 10)%Q
    then [DescriptionMismatch similarity (firstn 150 src_desc) (firstn 150 gen_desc)]
    else []
  else [].

(** The body of the first loop of [compare_perks], for one file name. *)
Definition compare_file {L : Lower} (source : dict perk) (perks_dir : directory)
  (filename : pystr) : list discrepancy :=
  if negb (endswith json_suffix filename) then []
  else
    match dict_get filename perks_dir with
    | None => []
    | Some generated =>
        let perk_name := g_name generated in
        let perk_key := lower perk_name in
        match dict_get perk_key source with
        | None => [NotInSource perk_name filename]
        | Some src =>
            match description_issues src generated with
            | [] => []
            | issues => [FieldMismatch perk_name filename issues]
            end
        end
    end.

Definition generated_names {L : Lower} (perks_dir : directory) : list pystr :=
  set_of
    (flat_map
       (fun entry : pystr * generated =>
          if endswith json_suffix (fst entry)
          then [lower (g_name (snd entry))] else [])
       perks_dir).

Definition missing {L : Lower} (source : dict perk) (perks_dir : directory)
  : list discrepancy :=
  flat_map
    (fun entry : pystr * perk =>
       if negb (mem (fst entry) (generated_names perks_dir))
       then [Missing (name (snd entry))] else [])
    source.

Definition compare_perks {L : Lower} (source : dict perk) (perks_dir : directory)
  : list discrepancy :=
  flat_map (compare_file source perks_dir) (sorted (keys perks_dir))
  ++ missing source perks_dir.

End Perks.

(** ** [scripts/validate_spells.py] *)

Module Spells.
Import Py.

Record spell := {
  name : pystr;
  damage : option pystr;
  effect : pystr;
  crit : pystr
}.

(** The variables of [parse_source_spells]. *)
Record state := {
  spells : dict spell;
  current_spell : option pystr;
  current_damage : option pystr;
  effect_lines : list pystr;
  crit_lines : list pystr;
  in_crit : bool
}.

Definition initial : state :=
  {| spells := []; current_spell := None; current_damage := None;
     effect_lines := []; crit_lines := []; in_crit := false |}.

Definition header_marker : pystr := str "## ".
Definition damage_marker : pystr := str "**Damage Base:**".
Definition crit_marker : pystr := str "**Crit:**".
Definition separator_marker : pystr := str "---".

(** [if current_spell:] *)
Definition has_spell (st : state) : bool :=
  match current_spell st with Some n => truthy n | None => false end.

(** The block [if current_spell: ... spells[current_spell.lower()] = ...],
    which runs at every header and once after the loop. *)
Definition save {L : Lower} (st : state) : dict spell :=
  match current_spell st with
  | Some n =>
      if truthy n then
        dict_set (lower n)
          {| name := n; damage := current_damage st;
             effect := strip (join newline (effect_lines st));
             crit := strip (join newline (crit_lines st)) |}
          (spells st)
      else spells st
  | None => spells st
  end.

(** The body of the loop, for one line. *)
Definition step {L : Lower} (st : state) (raw : pystr) : state :=
  let line := rstrip raw in
  if startswith header_marker line then
    {| spells := save st;
       current_spell := Some (strip (skipn 3 line));
       current_damage := None;
       effect_lines := []; crit_lines := []; in_crit := false |}
  else if startswith damage_marker line then
    let damage := strip (replace damage_marker [] line) in
    {| spells := spells st; current_spell := current_spell st;
       current_damage := Some (if eqb damage (str "-") then [] else lower damage);
       effect_lines := effect_lines st; crit_lines := crit_lines st;
       in_crit := in_crit st |}
  else if startswith crit_marker line then
    let crit_text := strip (replace crit_marker [] line) in
    {| spells := spells st; current_spell := current_spell st;
       current_damage := current_damage st;
       effect_lines := effect_lines st;
       crit_lines :=
         if truthy crit_text then crit_lines st ++ [crit_text]
         else crit_lines st;
       in_crit := true |}
  else if has_spell st && truthy line && negb (startswith separator_marker line)
  then
    if in_crit st then
      {| spells := spells st; current_spell := current_spell st;
         current_damage := current_damage st;
         effect_lines := effect_lines st;
         crit_lines := crit_lines st ++ [line];
         in_crit := in_crit st |}
    else
      {| spells := spells st; current_spell := current_spell st;
         current_damage := current_damage st;
         effect_lines := effect_lines st ++ [line];
         crit_lines := crit_lines st;
         in_crit := in_crit st |}
  else st.

Definition parse_lines {L : Lower} (lines : list pystr) : dict spell :=
  save (fold_left step lines initial).

Definition parse_source_spells {L : Lower} (text : pystr) : dict spell :=
  parse_lines (split newline (strip text)).

(** [normalize_text] of this script: the same text as in
    [validate_perks.py], with the same tag pattern. *)
Definition normalize_text (text : pystr) : pystr :=
  if negb (truthy text) then []
  else
    let text := Perks.remove_tags false text in
    let text := join (str " ") (words text) in
    let text :=
      replace [8221%N] [34%N]
        (replace [8220%N] [34%N] (replace [8217%N] [39%N] text)) in
    strip text.

(** A generated spell: the [name] of the JSON object and the three fields
    of its [system] object that the script reads, each absent or present.
    Files are taken as decoded; the fields carry the JSON type of the
    pack's schema, a string. *)
Record generated := {
  g_name : pystr;
  g_damageType : option pystr;
  g_effect : option pystr;
  g_critEffect : option pystr
}.

Definition directory := dict generated.

(** [d.get(key, '')] *)
Definition get (field : option pystr) : pystr :=
  match field with Some v => v | None => [] end.

(** The lines added to [issues], kept as data: the damage line with the
    source damage ([None] when the block has no damage line), the effect
    lines with the two excerpts, the crit lines with the two texts. *)
Inductive issue :=
| DamageIssue (src_damage : option pystr) (gen_damage : pystr)
| EffectMismatch (src_excerpt gen_excerpt : pystr)
| CritMismatch (src_crit gen_crit : pystr).

Inductive discrepancy :=
| NotInSource (spell file : pystr)
| FieldMismatch (spell file : pystr) (issues : list issue)
| Missing (spell : pystr).

(** [gen_damage != src['damage']]: a string differs from [None]. *)
Definition damage_differs (gen_damage : pystr) (src_damage : option pystr)
  : bool :=
  match src_damage with
  | Some d => negb (eqb gen_damage d)
  | None => true
  end.

Definition damage_issues (src : spell) (gen_system : generated) : list issue :=
  let gen_damage := get (g_damageType gen_system) in
  if damage_differs gen_damage (damage src)
  then [DamageIssue (damage src) gen_damage] else [].

Definition effect_issues (src : spell) (gen_system : generated) : list issue :=
  let src_effect := normalize_text (effect src) in
  let gen_effect := normalize_text (get (g_effect gen_system)) in
  if negb (eqb src_effect gen_effect)
  then [EffectMismatch (firstn 200 src_effect) (firstn 200 gen_effect)] else [].

Definition crit_issues (src : spell) (gen_system : generated) : list issue :=
  let src_crit := normalize_text (crit src) in
  let gen_crit := normalize_text (get (g_critEffect gen_system)) in
  if negb (eqb src_crit gen_crit)
  then [CritMismatch src_crit gen_crit] else [].

Definition json_suffix : pystr := str ".json".

(** The body of the first loop of [compare_spells], for one file name. *)
Definition compare_file {L : Lower} (source : dict spell) (spells_dir : directory)
  (filename : pystr) : list discrepancy :=
  if negb (endswith json_suffix filename) then []
  else
    match dict_get filename spells_dir with
    | None => []
    | Some generated =>
        let spell_name := g_name generated in
        let spell_key := lower spell_name in
        match dict_get spell_key source with
        | None => [NotInSource spell_name filename]
        | Some src =>
            let issues :=
              damage_issues src generated ++ effect_issues src generated
              ++ crit_issues src generated in
            match issues with
            | [] => []
            | _ => [FieldMismatch spell_name filename issues]
            end
        end
    end.

Definition generated_names {L : Lower} (spells_dir : directory) : list pystr :=
  set_of
    (flat_map
       (fun entry : pystr * generated =>
          if endswith json_suffix (fst entry)
          then [lower (g_name (snd entry))] else [])
       spells_dir).

Definition missing {L : Lower} (source : dict spell) (spells_dir : directory)
  : list discrepancy :=
  flat_map
    (fun entry : pystr * spell =>
       if negb (mem (fst entry) (generated_names spells_dir))
       then [Missing (name (snd entry))] else [])
    source.

Definition compare_spells {L : Lower} (source : dict spell)
  (spells_dir : directory) : list discrepancy :=
  flat_map (compare_file source spells_dir) (sorted (keys spells_dir))
  ++ missing source spells_dir.

End Spells.

(** ** [scripts/validate_weapons.py] *)

Module Weapons.
Import Py.
Local Open Scope Z_scope.

Record weapon := {
  name : pystr;
  damage : pystr;
  grip : pystr;
  range : pystr;
  properties : pystr;
  value : pystr;
  slots : pystr
}.

Definition table_header : pystr := str "| Weapon | Damage | Grip |".

(** The body of the loop of [parse_source_weapons], with the pair
    [(weapons, in_table)] as state. *)
Definition scan_line {L : Lower} (st : dict weapon * bool) (line : pystr)
  : dict weapon * bool :=
  let '(weapons, in_table) := st in
  if contains table_header line then (weapons, true)
  else if in_table && startswith (str "|---") line then st
  else if in_table && startswith (str "|") line && (7 <=? count 124%N line)%nat
  then
    let parts := List.map strip (slice_1_m1 (split (str "|") line)) in
    match parts with
    | p0 :: p1 :: p2 :: p3 :: p4 :: p5 :: p6 :: _ =>
        if negb (eqb p0 (str "Weapon")) then
          (dict_set (lower p0)
             {| name := p0; damage := p1; grip := p2; range := p3;
                properties := p4; value := p5; slots := p6 |} weapons,
           in_table)
        else st
    | _ => st
    end
  else if in_table && negb (startswith (str "|") line) then (weapons, false)
  else st.

Definition parse_source_weapons {L : Lower} (text : pystr) : dict weapon :=
  fst (fold_left scan_line (split newline text) ([], false)).

(** [int(m.group(1))] for a match [m] of one of the two value patterns.
    The group holds decimal digits only, so [int] cannot raise there (lemma
    [int_group_digits] below); the default is never used. *)
Definition int_group (group : pystr) : Z :=
  match int group with Some n => n | None => 0 end.

Definition parse_value_to_copper (value_str : pystr) : Z :=
  if negb (truthy value_str) || eqb value_str (str "-") then 0
  else
    let total := 0 in
    let total :=
      match search_digits_then 103%N value_str with
      | Some gold => total + int_group gold * 100
      | None => total
      end in
    let total :=
      match search_digits_then 115%N value_str with
      | Some silver => total + int_group silver * 10
      | None => total
      end in
    total.

(** A generated weapon: the [name] of the JSON object and the fields of its
    [system] object that the script reads, each absent or present.  Files
    are taken as decoded; the fields carry the JSON types of the pack's
    schema (strings for damage and grip, integers for slots and value). *)
Record generated := {
  g_name : pystr;
  g_damage : option pystr;
  g_grip : option pystr;
  g_slots : option Z;
  g_value : option Z
}.

Definition directory := dict generated.

(** [d.get(key, default)] *)
Definition get {A} (field : option A) (default : A) : A :=
  match field with Some v => v | None => default end.

(** The lines added to [issues], kept as data. *)
Inductive issue :=
| Damage (src_damage gen_damage : pystr)
| Grip (src_grip expected_grip gen_grip : pystr)
| Slots (src_slots gen_slots : Z)
| Value (src_value : Z) (src_text : pystr) (gen_value : Z).

Inductive discrepancy :=
| NotInSource (weapon file : pystr)
| FieldMismatch (weapon file : pystr) (issues : list issue)
| Missing (weapon : pystr).

(** The damage check of [compare_weapons]. *)
Definition damage_issues (src : weapon) (gen_system : generated) : list issue :=
  let src_damage := strip (damage src) in
  let gen_damage := get (g_damage gen_system) [] in
  let src_normalized :=
    if startswith (str "1") src_damage || eqb src_damage (str "1")
    then src_damage else str "1" ++ src_damage in
  if negb (eqb src_normalized gen_damage) && negb (eqb src_damage gen_damage)
  then [Damage src_damage gen_damage] else [].

(** The grip check. *)
Definition grip_map : dict pystr :=
  [(str "1H", str "1h"); (str "2H", str "2h");
   (str "V", str "versatile"); (str "F", str "fist")].

Definition expected_grip {L : Lower} (src_grip : pystr) : pystr :=
  get (dict_get (strip src_grip) grip_map) (lower (strip src_grip)).

Definition grip_issues {L : Lower} (src : weapon) (gen_system : generated)
  : list issue :=
  let expected_grip := expected_grip (grip src) in
  if negb (eqb expected_grip (get (g_grip gen_system) []))
  then [Grip (grip src) expected_grip (get (g_grip gen_system) [])] else [].

(** The slots check; [None] is the [ValueError] of [int], which the
    [except] clause turns into [pass]. *)
Definition src_slots (src : weapon) : option Z :=
  if negb (mem (strip (slots src)) [str "-"; []])
  then int (strip (slots src)) else Some 0.

Definition slots_issues (src : weapon) (gen_system : generated) : list issue :=
  match src_slots src with
  | Some src_slots =>
      let gen_slots := get (g_slots gen_system) 0 in
      if negb (src_slots =? gen_slots) then [Slots src_slots gen_slots] else []
  | None => []
  end.

(** The value check. *)
Definition value_issues (src : weapon) (gen_system : generated) : list issue :=
  let src_value := parse_value_to_copper (value src) in
  let gen_value := get (g_value gen_system) 0 in
  if negb (src_value =? gen_value)
  then [Value src_value (value src) gen_value] else [].

Definition json_suffix : pystr := str ".json".

(** The body of the first loop of [compare_weapons], for one file name. *)
Definition compare_file {L : Lower} (source : dict weapon) (weapons_dir : directory)
  (filename : pystr) : list discrepancy :=
  if negb (endswith json_suffix filename) then []
  else
    match dict_get filename weapons_dir with
    | None => []
    | Some generated =>
        let weapon_name := g_name generated in
        let weapon_key := lower weapon_name in
        match dict_get weapon_key source with
        | None => [NotInSource weapon_name filename]
        | Some src =>
            let issues :=
              damage_issues src generated ++ grip_issues src generated
              ++ slots_issues src generated ++ value_issues src generated in
            match issues with
            | [] => []
            | _ => [FieldMismatch weapon_name filename issues]
            end
        end
    end.

Definition generated_names {L : Lower} (weapons_dir : directory) : list pystr :=
  set_of
    (flat_map
       (fun entry : pystr * generated =>
          if endswith json_suffix (fst entry)
          then [lower (g_name (snd entry))] else [])
       weapons_dir).

Definition missing {L : Lower} (source : dict weapon) (weapons_dir : directory)
  : list discrepancy :=
  flat_map
    (fun entry : pystr * weapon =>
       if negb (mem (fst entry) (generated_names weapons_dir))
       then [Missing (name (snd entry))] else [])
    source.

Definition compare_weapons {L : Lower} (source : dict weapon)
  (weapons_dir : directory) : list discrepancy :=
  flat_map (compare_file source weapons_dir) (sorted (keys weapons_dir))
  ++ missing source weapons_dir.

End Weapons.
(** ** Facts about the string builtins *)

Module PyFacts.
Import Py.

Lemma eqb_eq (a b : pystr) : eqb a b = true <-> a = b.
Proof.
  revert b; induction a as [|x a IH]; intros [|y b]; simpl; split;
    try congruence; try discriminate.
  - intros E. apply andb_true_iff in E as [E1 E2].
    apply N.eqb_eq in E1. apply IH in E2. now subst.
  - intros E. injection E as -> ->.
    rewrite N.eqb_refl. simpl. now apply IH.
Qed.

Lemma eqb_refl (a : pystr) : eqb a a = true.
Proof. now apply eqb_eq. Qed.

Lemma eqb_neq (a b : pystr) : eqb a b = false <-> a <> b.
Proof.
  rewrite <- eqb_eq. destruct (eqb a b); split; congruence.
Qed.

Lemma mem_In (x : pystr) (l : list pystr) : mem x l = true <-> In x l.
Proof.
  unfold mem. rewrite existsb_exists. split.
  - intros (y & Hy & E). apply eqb_eq in E. now subst.
  - intros Hx. exists x. split; [assumption | apply eqb_refl].
Qed.

Lemma mem_false (x : pystr) (l : list pystr) : mem x l = false <-> ~ In x l.
Proof.
  rewrite <- mem_In. destruct (mem x l); split; congruence.
Qed.

Lemma truthy_true (s : pystr) : truthy s = true <-> s <> [].
Proof. destruct s; simpl; split; congruence. Qed.

Lemma truthy_false (s : pystr) : truthy s = false <-> s = [].
Proof. destruct s; simpl; split; congruence. Qed.

(** *** Dictionaries *)

Lemma dict_get_set_same {V} (k : pystr) (v : V) (d : dict V) :
  dict_get k (dict_set k v d) = Some v.
Proof.
  induction d as [|[k' v'] d IH]; simpl.
  - now rewrite eqb_refl.
  - destruct (eqb k k') eqn:E; simpl; rewrite ?eqb_refl, ?E; auto.
Qed.

Lemma dict_get_In {V} (k : pystr) (v : V) (d : dict V) :
  dict_get k d = Some v -> In (k, v) d.
Proof.
  induction d as [|[k' v'] d IH]; simpl; [discriminate|].
  destruct (eqb k k') eqn:E.
  - apply eqb_eq in E. intros [= ->]. left. now subst.
  - intros Hg. right. auto.
Qed.

Lemma dict_set_In {V} (k : pystr) (v : V) (d : dict V) (e : pystr * V) :
  In e (dict_set k v d) -> e = (k, v) \/ In e d.
Proof.
  induction d as [|[k' v'] d IH]; simpl.
  - intros [<-|[]]. now left.
  - destruct (eqb k k'); simpl.
    + intros [<-|Hin]; auto.
    + intros [<-|Hin]; auto. destruct (IH Hin); auto.
Qed.

Lemma dict_get_NoDup {V} (k : pystr) (v : V) (d : dict V) :
  NoDup (keys d) -> In (k, v) d -> dict_get k d = Some v.
Proof.
  induction d as [|[k' v'] d IH]; simpl; [intros _ []|].
  intros Hnd [E|Hin].
  - injection E as -> ->. now rewrite eqb_refl.
  - inversion Hnd as [|? ? Hni Hnd']; subst.
    destruct (eqb k k') eqn:E.
    + apply eqb_eq in E. subst. exfalso. apply Hni.
      unfold keys. change k' with (fst (k', v)). now apply in_map.
    + auto.
Qed.

Lemma dict_get_Permutation {V} (k : pystr) (d1 d2 : dict V) :
  NoDup (keys d1) -> Permutation d1 d2 -> dict_get k d1 = dict_get k d2.
Proof.
  intros Hnd Hp.
  assert (Hnd2 : NoDup (keys d2)).
  { eapply Permutation_NoDup; [|exact Hnd]. unfold keys. now apply Permutation_map. }
  destruct (dict_get k d1) as [v|] eqn:E1.
  - symmetry. apply dict_get_NoDup; [assumption|].
    eapply Permutation_in; [exact Hp|]. now apply dict_get_In.
  - destruct (dict_get k d2) as [v|] eqn:E2; [|reflexivity].
    apply dict_get_In in E2.
    apply (Permutation_in _ (Permutation_sym Hp)) in E2.
    apply (dict_get_NoDup _ _ _ Hnd) in E2. congruence.
Qed.

(** *** The order on strings and [sorted] *)

Lemma leb_total (a b : pystr) : leb a b = true \/ leb b a = true.
Proof.
  revert b; induction a as [|x a IH]; intros [|y b]; simpl; auto.
  destruct (N.ltb_spec x y), (N.ltb_spec y x); auto; lia.
Qed.

Lemma leb_antisym (a b : pystr) : leb a b = true -> leb b a = true -> a = b.
Proof.
  revert b; induction a as [|x a IH]; intros [|y b]; simpl; try congruence.
  destruct (N.ltb_spec x y), (N.ltb_spec y x); try congruence; try lia.
  intros H1 H2. assert (x = y) by lia. subst. f_equal. auto.
Qed.

Lemma leb_trans (a b c : pystr) :
  leb a b = true -> leb b c = true -> leb a c = true.
Proof.
  revert b c; induction a as [|x a IH]; intros [|y b] [|z c]; simpl;
    try congruence.
  destruct (N.ltb_spec x y), (N.ltb_spec y x), (N.ltb_spec y z),
    (N.ltb_spec z y), (N.ltb_spec x z), (N.ltb_spec z x);
    try congruence; try lia.
  apply IH.
Qed.

Lemma leb_false (a b : pystr) : leb a b = false -> leb b a = true.
Proof. destruct (leb_total a b); congruence. Qed.

Lemma insert_sorted_comm (x y : pystr) (l : list pystr) :
  insert_sorted x (insert_sorted y l) = insert_sorted y (insert_sorted x l).
Proof.
  induction l as [|z l IH]; simpl.
  - destruct (leb x y) eqn:Exy, (leb y x) eqn:Eyx; auto.
    + now rewrite (leb_antisym _ _ Exy Eyx).
    + apply leb_false in Exy. congruence.
  - destruct (leb y z) eqn:Eyz, (leb x z) eqn:Exz; simpl;
      rewrite ?Eyz, ?Exz.
    + destruct (leb x y) eqn:Exy, (leb y x) eqn:Eyx; auto.
      * now rewrite (leb_antisym _ _ Exy Eyx).
      * apply leb_false in Exy. congruence.
    + destruct (leb x y) eqn:Exy; auto.
      rewrite (leb_trans _ _ _ Exy Eyz) in Exz. discriminate.
    + destruct (leb y x) eqn:Eyx; auto.
      rewrite (leb_trans _ _ _ Eyx Exz) in Eyz. discriminate.
    + now rewrite IH.
Qed.

Lemma sorted_Permutation (l1 l2 : list pystr) :
  Permutation l1 l2 -> sorted l1 = sorted l2.
Proof.
  induction 1; simpl; try congruence.
  apply insert_sorted_comm.
Qed.

Lemma insert_sorted_In (x y : pystr) (l : list pystr) :
  In y (insert_sorted x l) <-> y = x \/ In y l.
Proof.
  induction l as [|z l IH]; simpl.
  - intuition.
  - destruct (leb x z); simpl; rewrite ?IH; intuition.
Qed.

Lemma sorted_In (y : pystr) (l : list pystr) : In y (sorted l) <-> In y l.
Proof.
  induction l as [|x l IH]; simpl; [tauto|].
  rewrite insert_sorted_In, IH. intuition.
Qed.

Definition le (a b : pystr) : Prop := leb a b = true.

Lemma insert_sorted_sorted (x : pystr) (l : list pystr) :
  StronglySorted le l -> StronglySorted le (insert_sorted x l).
Proof.
  induction 1 as [|z l Hs IH Hall]; simpl.
  - repeat constructor.
  - destruct (leb x z) eqn:E.
    + constructor; [now constructor|].
      constructor; [exact E|].
      eapply Forall_impl; [|exact Hall].
      intros w Hw. exact (leb_trans _ _ _ E Hw).
    + constructor; [assumption|].
      apply Forall_forall. intros w Hw.
      apply insert_sorted_In in Hw as [->|Hw].
      * now apply leb_false.
      * rewrite Forall_forall in Hall. auto.
Qed.

Lemma sorted_sorted (l : list pystr) : StronglySorted le (sorted l).
Proof.
  induction l; simpl; [constructor | now apply insert_sorted_sorted].
Qed.

(** *** Whitespace and [strip] *)

Lemma lstrip_nonspace (c : codepoint) (s : pystr) :
  isspace c = false -> lstrip (c :: s) = c :: s.
Proof. intros E. simpl. now rewrite E. Qed.

Lemma rstrip_nonspace (s : pystr) :
  Forall (fun c => isspace c = false) s -> rstrip s = s.
Proof.
  induction 1 as [|c s Hc _ IH]; simpl; [reflexivity|].
  rewrite IH. destruct s; [now rewrite Hc | reflexivity].
Qed.

Lemma strip_nonspace (s : pystr) :
  Forall (fun c => isspace c = false) s -> strip s = s.
Proof.
  intros Hs. unfold strip.
  destruct Hs as [|c s Hc Hs]; [reflexivity|].
  rewrite lstrip_nonspace by assumption.
  apply rstrip_nonspace. now constructor.
Qed.

(** *** Decimal digits, [int] and the digit searches *)

Lemma isspace_not_decimal (c : codepoint) :
  isspace c = true -> decimal c = None.
Proof.
  unfold isspace, whitespace_table. simpl. intros E.
  repeat (apply orb_prop in E as [E|E];
          [apply N.eqb_eq in E; subst c; reflexivity|]).
  discriminate.
Qed.

Lemma isdecimal_nonspace (c : codepoint) :
  isdecimal c = true -> isspace c = false.
Proof.
  unfold isdecimal. intros E.
  destruct (isspace c) eqn:Es; [|reflexivity].
  now rewrite (isspace_not_decimal _ Es) in E.
Qed.

(** The number written by a string of decimal digits. *)
Definition numeral_value (digits : pystr) : N :=
  fold_left
    (fun acc d => 10 * acc + match decimal d with Some v => v | None => 0 end)%N
    digits 0%N.

Lemma int_digits_decimal (digits : pystr) :
  Forall (fun c => isdecimal c = true) digits -> digits <> [] ->
  forall acc after_digit,
    int_digits acc after_digit digits =
    Some (fold_left
            (fun acc d =>
               10 * acc + match decimal d with Some v => v | None => 0 end)%N
            digits acc).
Proof.
  induction 1 as [|d digits Hd Hall IH]; [congruence|].
  intros _ acc b. simpl. unfold isdecimal in Hd.
  destruct (decimal d) as [v|]; [|discriminate].
  destruct digits as [|d' digits]; [reflexivity|].
  apply IH. discriminate.
Qed.

Lemma int_decimal (digits : pystr) :
  Forall (fun c => isdecimal c = true) digits -> digits <> [] ->
  int digits = Some (Z.of_N (numeral_value digits)).
Proof.
  intros Hall Hne. unfold int.
  rewrite strip_nonspace
    by (eapply Forall_impl; [|exact Hall]; apply isdecimal_nonspace).
  destruct digits as [|c r]; [congruence|].
  assert (Hc : isdecimal c = true) by now inversion Hall.
  destruct (N.eqb_spec c 43) as [->|_]; [discriminate|].
  destruct (N.eqb_spec c 45) as [->|_]; [discriminate|].
  now rewrite (int_digits_decimal _ Hall Hne).
Qed.

(** A match of the digit pattern returns decimal digits, at least one. *)
Lemma match_digits_then_decimal (c : codepoint) (s group : pystr) :
  match_digits_then c s = Some group ->
  Forall (fun d => isdecimal d = true) group /\ group <> [].
Proof.
  revert group; induction s as [|d r IH]; intros group; simpl; [discriminate|].
  destruct (isdecimal d) eqn:Ed; [|discriminate].
  destruct (match_digits_then c r) as [g|].
  - intros [= <-]. destruct (IH g eq_refl). split; [now constructor|discriminate].
  - destruct r as [|x r']; [discriminate|].
    destruct (N.eqb x c); [|discriminate].
    intros [= <-]. split; [now repeat constructor|discriminate].
Qed.

Lemma search_digits_then_decimal (c : codepoint) (s group : pystr) :
  search_digits_then c s = Some group ->
  Forall (fun d => isdecimal d = true) group /\ group <> [].
Proof.
  induction s as [|d r IH]; simpl.
  - discriminate.
  - destruct (isdecimal d) eqn:Ed.
    + destruct (match_digits_then c r) as [g|] eqn:Em.
      * intros [= <-]. destruct (match_digits_then_decimal _ _ _ Em).
        split; [now constructor|discriminate].
      * destruct r as [|x r']; [exact IH|].
        destruct (N.eqb x c); [|exact IH].
        intros [= <-]. split; [now repeat constructor|discriminate].
    + exact IH.
Qed.

(** [digit_then c s]: somewhere in [s] a decimal digit is immediately
    followed by [c]. *)
Definition digit_then (c : codepoint) (s : pystr) : Prop :=
  exists pre d post, s = pre ++ d :: c :: post /\ isdecimal d = true.

Lemma digit_then_cons (c x : codepoint) (s : pystr) :
  digit_then c s -> digit_then c (x :: s).
Proof.
  intros (pre & d & post & -> & Hd). now exists (x :: pre), d, post.
Qed.

Lemma match_digits_then_Some (c : codepoint) (s group : pystr) :
  match_digits_then c s = Some group -> digit_then c s.
Proof.
  revert group; induction s as [|d r IH]; intros group; simpl; [discriminate|].
  destruct (isdecimal d) eqn:Ed; [|discriminate].
  destruct (match_digits_then c r) as [g|].
  - intros _. apply digit_then_cons. now apply (IH g).
  - destruct r as [|x r']; [discriminate|].
    destruct (N.eqb_spec x c) as [->|]; [|discriminate].
    intros _. now exists [], d, r'.
Qed.

Lemma search_digits_then_Some (c : codepoint) (s group : pystr) :
  search_digits_then c s = Some group -> digit_then c s.
Proof.
  induction s as [|d r IH].
  - simpl. discriminate.
  - cbn [search_digits_then].
    destruct (match_digits_then c (d :: r)) as [g|] eqn:Em.
    + intros _. now apply (match_digits_then_Some _ _ _ Em).
    + intros Hs. apply digit_then_cons. auto.
Qed.

Lemma search_digits_then_None (c : codepoint) (s : pystr) :
  ~ digit_then c s -> search_digits_then c s = None.
Proof.
  intros Hn. destruct (search_digits_then c s) as [g|] eqn:E; [|reflexivity].
  exfalso. apply Hn. now apply (search_digits_then_Some _ _ _ E).
Qed.

(** A run of digits followed by the literal is matched whole. *)
Lemma match_digits_then_run (c : codepoint) (digits post : pystr) :
  isdecimal c = false ->
  Forall (fun d => isdecimal d = true) digits -> digits <> [] ->
  match_digits_then c (digits ++ c :: post) = Some digits.
Proof.
  intros Hc. induction 1 as [|d digits Hd Hall IH]; [congruence|].
  intros _. simpl. rewrite Hd.
  destruct digits as [|d' digits].
  - simpl. rewrite Hc, N.eqb_refl. reflexivity.
  - rewrite IH by discriminate. reflexivity.
Qed.

Lemma search_digits_then_run (c : codepoint) (digits post : pystr) :
  isdecimal c = false ->
  Forall (fun d => isdecimal d = true) digits -> digits <> [] ->
  search_digits_then c (digits ++ c :: post) = Some digits.
Proof.
  intros Hc Hall Hne.
  destruct digits as [|d digits]; [congruence|].
  cbn [app search_digits_then].
  change (d :: digits ++ c :: post) with ((d :: digits) ++ c :: post).
  now rewrite match_digits_then_run.
Qed.

(** A run of digits followed by another code point holds no match, and the
    search goes on behind it. *)
Lemma match_digits_then_other (c x : codepoint) (digits post : pystr) :
  isdecimal c = false -> isdecimal x = false -> x <> c ->
  Forall (fun d => isdecimal d = true) digits ->
  match_digits_then c (digits ++ x :: post) = None.
Proof.
  intros Hc Hx Hxc. induction 1 as [|d digits Hd Hall IH]; simpl.
  - now rewrite Hx.
  - rewrite Hd, IH.
    destruct digits as [|d' digits]; simpl.
    + destruct (N.eqb_spec x c); congruence.
    + destruct (N.eqb_spec d' c) as [->|]; [|reflexivity].
      inversion Hall; congruence.
Qed.

Lemma search_digits_then_other (c x : codepoint) (digits post : pystr) :
  isdecimal c = false -> isdecimal x = false -> x <> c ->
  Forall (fun d => isdecimal d = true) digits ->
  search_digits_then c (digits ++ x :: post) = search_digits_then c post.
Proof.
  intros Hc Hx Hxc. induction 1 as [|d digits Hd Hall IH].
  - cbn [app search_digits_then]. simpl match_digits_then. now rewrite Hx.
  - cbn [app search_digits_then].
    change (d :: digits ++ x :: post) with ((d :: digits) ++ x :: post).
    rewrite match_digits_then_other by (auto; now constructor).
    exact IH.
Qed.

(** *** [rstrip], [split] and lines *)

Lemma rstrip_app (u v : pystr) :
  rstrip (u ++ v) =
  match rstrip v with [] => rstrip u | _ :: _ => u ++ rstrip v end.
Proof.
  induction u as [|a u IH]; simpl.
  - now destruct (rstrip v).
  - rewrite IH. destruct (rstrip v) as [|b v'] eqn:E; [reflexivity|].
    now destruct u.
Qed.

Lemma split_newline_line (line rest : pystr) :
  ~ In 10%N line ->
  split newline (line ++ newline ++ rest) = line :: split newline rest.
Proof.
  unfold split, newline. induction line as [|a line IH]; intros Hn.
  - reflexivity.
  - cbn [app split_from startswith].
    destruct (N.eqb_spec 10 a) as [<-|_]; [exfalso; apply Hn; now left|].
    cbn [andb]. simpl in IH. rewrite IH; [reflexivity|].
    intros Hin. apply Hn. now right.
Qed.

Lemma split_newline_single (line : pystr) :
  ~ In 10%N line -> split newline line = [line].
Proof.
  unfold split, newline. induction line as [|a line IH]; intros Hn.
  - reflexivity.
  - cbn [split_from startswith].
    destruct (N.eqb_spec 10 a) as [<-|_]; [exfalso; apply Hn; now left|].
    cbn [andb]. rewrite IH; [reflexivity|].
    intros Hin. apply Hn. now right.
Qed.

(** The first line of a stripped text that begins with a line free of
    surrounding whitespace is that line. *)
Lemma first_line_of_strip (line rest : pystr) :
  ~ In 10%N line -> starts_word line = true -> rstrip line = line ->
  exists lines, split newline (strip (line ++ newline ++ rest)) = line :: lines.
Proof.
  intros Hn Hw Hr. unfold strip.
  destruct line as [|a line]; [discriminate|].
  simpl in Hw. apply negb_true_iff in Hw.
  change ((a :: line) ++ newline ++ rest) with (a :: (line ++ newline ++ rest)).
  rewrite lstrip_nonspace by assumption.
  change (a :: (line ++ newline ++ rest)) with ((a :: line) ++ newline ++ rest).
  rewrite rstrip_app, Hr.
  destruct (rstrip (newline ++ rest)) as [|b t] eqn:E.
  - exists []. now apply split_newline_single.
  - assert (Eb : b :: t = newline ++ t).
    { unfold newline in *. simpl in E.
      destruct (rstrip rest); [discriminate | now injection E as <- <-]. }
    rewrite Eb. eexists. now apply split_newline_line.
Qed.

(** *** The ASCII lowering *)

Lemma ascii_lower_no_upper (s : pystr) (c : codepoint) :
  In c (ascii_lower s) -> ~ (65 <= c <= 90)%N.
Proof.
  unfold ascii_lower. rewrite in_map_iff. intros (x & <- & _).
  unfold ascii_lower_cp.
  destruct (N.leb_spec 65 x), (N.leb_spec x 90); simpl; lia.
Qed.

Lemma rstrip_idempotent (s : pystr) : rstrip (rstrip s) = rstrip s.
Proof.
  induction s as [|c s IH]; [reflexivity|].
  cbn [rstrip]. destruct (rstrip s) as [|d r] eqn:E.
  - destruct (isspace c) eqn:Ec; [reflexivity|].
    cbn [rstrip]. now rewrite Ec.
  - cbn [rstrip] in *. now rewrite IH.
Qed.

Lemma strip_nonempty (s : pystr) : rstrip s <> [] -> strip s <> [].
Proof.
  unfold strip. induction s as [|c s IH]; [intros H; exact H|].
  cbn [rstrip lstrip]. destruct (isspace c) eqn:Ec.
  - destruct (rstrip s); [congruence|]. intros _. apply IH. discriminate.
  - intros _. cbn [rstrip]. rewrite Ec. now destruct (rstrip s).
Qed.

(** *** [replace] of one code point, [split()] and [join] *)

(** [subst a b] is the code-point map of [replace] for one-character
    arguments. *)
Definition subst (a b x : codepoint) : codepoint := if N.eqb a x then b else x.

Lemma replace_single (a b : codepoint) (s : pystr) :
  replace [a] [b] s = List.map (subst a b) s.
Proof.
  unfold replace. induction s as [|x s IH]; [reflexivity|].
  cbn [replace_from startswith List.map List.length Nat.sub app].
  unfold subst at 1. rewrite andb_true_r.
  destruct (N.eqb a x); now rewrite IH.
Qed.

(** A word: non-empty and free of whitespace. *)
Definition word (w : pystr) : Prop :=
  w <> [] /\ Forall (fun c => isspace c = false) w.

Lemma words_word (s : pystr) : Forall word (words s).
Proof.
  induction s as [|c r IH]; [constructor|].
  cbn [words]. destruct (isspace c) eqn:Ec; [exact IH|].
  destruct (starts_word r).
  - destruct (words r) as [|w ws].
    + repeat constructor; [discriminate | assumption].
    + inversion IH as [|? ? [Hne Hw] Hws]; subst.
      constructor; [|assumption].
      split; [discriminate | now constructor].
  - constructor; [|exact IH].
    split; [discriminate | now repeat constructor].
Qed.

Lemma starts_word_map (f : codepoint -> codepoint) (s : pystr) :
  (forall c, isspace (f c) = isspace c) ->
  starts_word (List.map f s) = starts_word s.
Proof. intros Hf. destruct s; simpl; [reflexivity | now rewrite Hf]. Qed.

Lemma words_map (f : codepoint -> codepoint) (s : pystr) :
  (forall c, isspace (f c) = isspace c) ->
  words (List.map f s) = List.map (List.map f) (words s).
Proof.
  intros Hf. induction s as [|c r IH]; [reflexivity|].
  cbn [List.map words]. rewrite Hf, starts_word_map, IH by assumption.
  destruct (isspace c); [reflexivity|].
  destruct (starts_word r); [|reflexivity].
  now destruct (words r).
Qed.

Lemma join_cons (sep w w' : pystr) (l : list pystr) :
  join sep (w :: w' :: l) = w ++ sep ++ join sep (w' :: l).
Proof. reflexivity. Qed.

Lemma join_map (f : codepoint -> codepoint) (sep : pystr) (l : list pystr) :
  List.map f (join sep l) = join (List.map f sep) (List.map (List.map f) l).
Proof.
  induction l as [|w l IH]; [reflexivity|].
  destruct l as [|w' l]; [reflexivity|].
  cbn [List.map] in *. now rewrite !join_cons, !map_app, IH.
Qed.

Lemma words_word_app (w rest : pystr) :
  word w -> starts_word rest = false -> words (w ++ rest) = w :: words rest.
Proof.
  intros [Hne Hw] Hr. induction Hw as [|c w Hc Hw IH]; [congruence|].
  cbn [app words]. rewrite Hc.
  destruct w as [|c' w].
  - cbn [app]. now rewrite Hr.
  - assert (Hc' : isspace c' = false) by now inversion Hw.
    cbn [app starts_word]. rewrite Hc'. cbn [negb].
    cbn [app] in IH. rewrite IH by discriminate. reflexivity.
Qed.

Lemma words_join (ws : list pystr) :
  Forall word ws -> words (join (str " ") ws) = ws.
Proof.
  induction 1 as [|w ws Hw Hws IH]; [reflexivity|].
  destruct ws as [|w' ws].
  - cbn [join]. rewrite <- (app_nil_r w) at 1.
    now rewrite words_word_app.
  - rewrite join_cons, words_word_app by (auto; reflexivity).
    change (words (str " " ++ join (str " ") (w' :: ws)))
      with (words (join (str " ") (w' :: ws))).
    now rewrite IH.
Qed.

Lemma join_word_nonempty (ws : list pystr) :
  Forall word ws -> ws <> [] ->
  join (str " ") ws <> [] /\ rstrip (join (str " ") ws) = join (str " ") ws.
Proof.
  induction 1 as [|w ws [Hne Hw] Hws IH]; [congruence|]. intros _.
  destruct ws as [|w' ws].
  - cbn [join]. split; [assumption | now apply rstrip_nonspace].
  - destruct IH as [IH1 IH2]; [discriminate|].
    rewrite join_cons. split.
    + destruct w; [congruence | discriminate].
    + rewrite rstrip_app. rewrite (rstrip_app (str " ")), IH2.
      destruct (join (str " ") (w' :: ws)) eqn:E; [congruence|].
      reflexivity.
Qed.

Lemma strip_join (ws : list pystr) :
  Forall word ws -> strip (join (str " ") ws) = join (str " ") ws.
Proof.
  intros Hws. destruct ws as [|w ws]; [reflexivity|].
  destruct (join_word_nonempty _ Hws) as [_ Hr]; [discriminate|].
  unfold strip.
  assert (El : lstrip (join (str " ") (w :: ws)) = join (str " ") (w :: ws)).
  { inversion Hws as [|? ? [Hne Hw] _]; subst.
    destruct w as [|c w]; [congruence|].
    assert (Hc : isspace c = false) by now inversion Hw.
    destruct ws; [|rewrite join_cons]; cbn [join app];
      now rewrite lstrip_nonspace. }
  now rewrite El.
Qed.

Lemma words_spaces (ws : pystr) :
  Forall (fun c => isspace c = true) ws -> words ws = [].
Proof.
  induction 1 as [|c ws Hc _ IH]; [reflexivity|].
  cbn [words]. now rewrite Hc.
Qed.

Lemma words_app_spaces (t ws : pystr) :
  Forall (fun c => isspace c = true) ws -> words (t ++ ws) = words t.
Proof.
  intros Hws. induction t as [|c t IH].
  - now apply words_spaces.
  - cbn [app words]. rewrite IH.
    assert (E : starts_word (t ++ ws) = starts_word t).
    { destruct t as [|d t]; [|reflexivity].
      destruct Hws as [|x ws Hx _]; [reflexivity|].
      cbn [app starts_word]. now rewrite Hx. }
    now rewrite E.
Qed.

Lemma rstrip_decompose (s : pystr) :
  exists ws, s = rstrip s ++ ws /\ Forall (fun c => isspace c = true) ws.
Proof.
  induction s as [|c s (ws & E & Hws)].
  - now exists [].
  - cbn [rstrip]. destruct (rstrip s) as [|d r] eqn:Er.
    + destruct (isspace c) eqn:Ec.
      * exists (c :: s). split; [reflexivity|].
        cbn [app] in E. subst s. now constructor.
      * exists ws. cbn [app] in *. split; [now f_equal | assumption].
    + exists ws. cbn [app] in *. split; [now f_equal | assumption].
Qed.

(** *** Sets of strings *)

Lemma set_of_In (x : pystr) (l : list pystr) : In x (set_of l) <-> In x l.
Proof.
  induction l as [|y l IH]; [tauto|].
  cbn [set_of]. destruct (mem y l) eqn:E.
  - rewrite IH. apply mem_In in E. simpl. intuition (subst; auto).
  - simpl. now rewrite IH.
Qed.

Lemma set_of_NoDup (l : list pystr) : NoDup (set_of l).
Proof.
  induction l as [|y l IH]; [constructor|].
  cbn [set_of]. destruct (mem y l) eqn:E; [assumption|].
  constructor; [|assumption].
  rewrite set_of_In. now apply mem_false.
Qed.

Lemma set_inter_In (x : pystr) (a b : list pystr) :
  In x (set_inter a b) <-> In x a /\ In x b.
Proof. unfold set_inter. now rewrite filter_In, mem_In. Qed.

Lemma set_union_In (x : pystr) (a b : list pystr) :
  In x (set_union a b) <-> In x a \/ In x b.
Proof.
  unfold set_union. rewrite in_app_iff, filter_In, negb_true_iff, mem_false.
  destruct (mem x a) eqn:E.
  - apply mem_In in E. tauto.
  - apply mem_false in E. tauto.
Qed.

Lemma set_inter_NoDup (a b : list pystr) : NoDup a -> NoDup (set_inter a b).
Proof. apply NoDup_filter. Qed.

Lemma set_union_NoDup (a b : list pystr) :
  NoDup a -> NoDup b -> NoDup (set_union a b).
Proof.
  intros Ha Hb. unfold set_union. apply NoDup_app; auto.
  - now apply NoDup_filter.
  - intros x Hx Hf. apply filter_In in Hf as [_ Hf].
    apply negb_true_iff, mem_false in Hf. contradiction.
Qed.

Lemma mem_Permutation (x : pystr) (l1 l2 : list pystr) :
  Permutation l1 l2 -> mem x l1 = mem x l2.
Proof.
  intros Hp. destruct (mem x l2) eqn:E.
  - apply mem_In. apply mem_In in E.
    now apply (Permutation_in _ (Permutation_sym Hp)).
  - apply mem_false. apply mem_false in E. intros Hin. apply E.
    now apply (Permutation_in _ Hp).
Qed.

(** *** The comparison of fractions *)

Lemma qlt_Qlt (x y : Q) : qlt x y = true <-> (x < y)%Q.
Proof. unfold qlt, Qlt. apply Z.ltb_lt. Qed.

Lemma mem_set_of (x : pystr) (l : list pystr) : mem x (set_of l) = mem x l.
Proof.
  destruct (mem x l) eqn:E.
  - apply mem_In, set_of_In. now apply mem_In.
  - apply mem_false. rewrite set_of_In. now apply mem_false.
Qed.

(** Assigning to a key keeps the order of the keys, and puts a new key
    last. *)
Lemma dict_set_keys {V} (k : pystr) (v : V) (d : dict V) :
  keys (dict_set k v d) = if mem k (keys d) then keys d else keys d ++ [k].
Proof.
  induction d as [|[k' v'] d IH]; [reflexivity|].
  unfold keys in *. cbn [dict_set List.map fst].
  change (mem k (k' :: List.map fst d)) with (eqb k k' || mem k (List.map fst d)).
  destruct (eqb k k') eqn:E; cbn [orb List.map fst].
  - apply eqb_eq in E. now subst.
  - rewrite IH. now destruct (mem k (List.map fst d)).
Qed.

(** *** Further facts: [strip], dictionaries, fields of a split *)

Lemma lstrip_In (x : codepoint) (s : pystr) : In x (lstrip s) -> In x s.
Proof.
  induction s as [|c s IH]; [intros []|].
  cbn [lstrip]. destruct (isspace c); [right; auto | trivial].
Qed.

Lemma rstrip_In (x : codepoint) (s : pystr) : In x (rstrip s) -> In x s.
Proof.
  induction s as [|c s IH]; [intros []|].
  cbn [rstrip]. destruct (rstrip s) as [|d r].
  - destruct (isspace c); [intros [] | intros [<-|[]]; now left].
  - intros [<-|Hin]; [now left | right; auto].
Qed.

Lemma strip_In (x : codepoint) (s : pystr) : In x (strip s) -> In x s.
Proof. intros H. now apply lstrip_In, rstrip_In. Qed.

Lemma rstrip_head (c : codepoint) (s : pystr) :
  isspace c = false -> exists t, rstrip (c :: s) = c :: t.
Proof.
  intros Hc. cbn [rstrip]. destruct (rstrip s); rewrite ?Hc; eauto.
Qed.

Lemma lstrip_head (s : pystr) :
  lstrip s = [] \/ exists c t, lstrip s = c :: t /\ isspace c = false.
Proof.
  induction s as [|c s IH]; [now left|].
  cbn [lstrip]. destruct (isspace c) eqn:E; [exact IH | right; eauto].
Qed.

Lemma strip_idempotent (s : pystr) : strip (strip s) = strip s.
Proof.
  unfold strip.
  destruct (lstrip_head s) as [->|(c & t & -> & Hc)]; [reflexivity|].
  destruct (rstrip_head c t Hc) as [u E].
  rewrite E, lstrip_nonspace by assumption.
  rewrite <- E. apply rstrip_idempotent.
Qed.

Lemma dict_get_set_other {V} (k k' : pystr) (v : V) (d : dict V) :
  k <> k' -> dict_get k (dict_set k' v d) = dict_get k d.
Proof.
  intros Hk. induction d as [|[k0 v0] d IH]; cbn [dict_set dict_get].
  - now rewrite (proj2 (eqb_neq k k') Hk).
  - destruct (eqb k' k0) eqn:E; cbn [dict_get].
    + apply eqb_eq in E. subst k0.
      now rewrite (proj2 (eqb_neq k k') Hk).
    + now rewrite IH.
Qed.

Lemma dict_get_None {V} (k : pystr) (d : dict V) :
  dict_get k d = None <-> ~ In k (keys d).
Proof.
  induction d as [|[k0 v0] d IH]; cbn [dict_get keys List.map fst In].
  - tauto.
  - destruct (eqb k k0) eqn:E.
    + apply eqb_eq in E. split; [discriminate | intuition congruence].
    + apply eqb_neq in E. fold (keys d). rewrite IH. intuition congruence.
Qed.

(** The fields of a split on one code point. *)
Lemma split_char_field (c : codepoint) (field rest : pystr) :
  ~ In c field ->
  split [c] (field ++ c :: rest) = field :: split [c] rest.
Proof.
  unfold split. induction field as [|a field IH]; intros Hn.
  - cbn [app split_from startswith List.length Nat.sub].
    now rewrite N.eqb_refl.
  - cbn [app split_from startswith].
    destruct (N.eqb_spec c a) as [<-|_]; [exfalso; apply Hn; now left|].
    cbn [andb]. rewrite IH; [reflexivity|].
    intros Hin. apply Hn. now right.
Qed.

Lemma split_char_last (c : codepoint) (field : pystr) :
  ~ In c field -> split [c] field = [field].
Proof.
  unfold split. induction field as [|a field IH]; intros Hn; [reflexivity|].
  cbn [split_from startswith].
  destruct (N.eqb_spec c a) as [<-|_]; [exfalso; apply Hn; now left|].
  cbn [andb]. rewrite IH; [reflexivity|].
  intros Hin. apply Hn. now right.
Qed.

Lemma split_char_no_sep (c : codepoint) (s : pystr) :
  Forall (fun field => ~ In c field) (split [c] s).
Proof.
  unfold split. induction s as [|a s IH]; [repeat constructor; intros []|].
  cbn [split_from startswith List.length Nat.sub].
  destruct (N.eqb_spec c a) as [<-|Hn]; cbn [andb].
  - constructor; [intros [] | exact IH].
  - destruct (split_from [c] 0 s) as [|w ws].
    + repeat constructor. intros [E|[]]. congruence.
    + inversion IH as [|? ? Hw Hws]; subst.
      constructor; [|assumption]. intros [E|Hin]; [congruence | auto].
Qed.

Lemma count_app (c : codepoint) (a b : pystr) :
  count c (a ++ b) = (count c a + count c b)%nat.
Proof. unfold count. now rewrite filter_app, length_app. Qed.

Lemma filter_all {A} (f : A -> bool) (l : list A) :
  (forall x, In x l -> f x = true) -> filter f l = l.
Proof.
  induction l as [|a l IH]; intros H; [reflexivity|].
  cbn [filter]. rewrite (H a (or_introl eq_refl)). f_equal.
  apply IH. intros x Hx. apply H. now right.
Qed.

Lemma filter_none {A} (f : A -> bool) (l : list A) :
  (forall x, In x l -> f x = false) -> filter f l = [].
Proof.
  induction l as [|a l IH]; intros H; [reflexivity|].
  cbn [filter]. rewrite (H a (or_introl eq_refl)).
  apply IH. intros x Hx. apply H. now right.
Qed.

(** Two sets with the same elements: the intersection and the union are
    the first one. *)
Lemma set_inter_same (a b : list pystr) :
  (forall w, In w a <-> In w b) -> set_inter a b = a.
Proof.
  intros H. unfold set_inter. apply filter_all.
  intros x Hx. apply mem_In. now apply H.
Qed.

Lemma set_union_same (a b : list pystr) :
  (forall w, In w a <-> In w b) -> set_union a b = a.
Proof.
  intros H. unfold set_union. rewrite filter_none; [apply app_nil_r|].
  intros x Hx. apply negb_false_iff, mem_In. now apply H.
Qed.

(** [split] and [in] for a separator of any length. *)
Lemma startswith_app (p rest : pystr) : startswith p (p ++ rest) = true.
Proof.
  induction p as [|c p IH]; [reflexivity|].
  cbn [app startswith]. now rewrite N.eqb_refl, IH.
Qed.

Lemma split_from_skip (sep x rest : pystr) :
  split_from sep (List.length x) (x ++ rest) = split_from sep 0 rest.
Proof.
  induction x as [|c x IH]; [reflexivity|]. cbn [List.length app split_from].
  exact IH.
Qed.

(** No occurrence of [sep] starts within [pre], when [rest] follows. *)
Fixpoint starts_nowhere (sep pre rest : pystr) : bool :=
  match pre with
  | [] => true
  | _ :: pre' =>
      negb (startswith sep (pre ++ rest)) && starts_nowhere sep pre' rest
  end.

Lemma split_first (sep pre post : pystr) :
  sep <> [] -> starts_nowhere sep pre (sep ++ post) = true ->
  split sep (pre ++ sep ++ post) = pre :: split sep post.
Proof.
  intros Hne. unfold split. induction pre as [|a pre IH]; intros Hs.
  - destruct sep as [|c sep]; [congruence|].
    cbn [app]. cbn [split_from].
    change (c :: sep ++ post) with ((c :: sep) ++ post).
    rewrite startswith_app. cbn [List.length Nat.sub].
    rewrite Nat.sub_0_r. now rewrite split_from_skip.
  - cbn [starts_nowhere] in Hs. apply andb_true_iff in Hs as [H1 H2].
    apply negb_true_iff in H1.
    cbn [app split_from]. cbn [app] in H1. rewrite H1.
    now rewrite (IH H2).
Qed.

Lemma split_no_match (sep s : pystr) :
  contains sep s = false -> split sep s = [s].
Proof.
  unfold split. induction s as [|c s IH]; intros H; [reflexivity|].
  cbn [contains] in H. apply orb_false_iff in H as [H1 H2].
  cbn [split_from]. rewrite H1. now rewrite (IH H2).
Qed.

Lemma contains_app (sep pre post : pystr) :
  contains sep (pre ++ sep ++ post) = true.
Proof.
  induction pre as [|a pre IH].
  - cbn [app]. destruct (sep ++ post) eqn:E; cbn [contains];
      rewrite <- E, startswith_app; reflexivity.
  - cbn [app contains]. rewrite IH. apply orb_true_r.
Qed.

Lemma insert_sorted_flat_map {B} (f : pystr -> list B) (x : pystr)
  (l : list pystr) :
  f x = [] -> flat_map f (insert_sorted x l) = flat_map f l.
Proof.
  intros Hx. induction l as [|y l IH]; cbn [insert_sorted flat_map].
  - now rewrite Hx.
  - destruct (leb x y); cbn [flat_map]; [now rewrite Hx | now rewrite IH].
Qed.

Lemma dict_get_middle {V} (k f : pystr) (v : V) (d1 d2 : dict V) :
  k <> f -> dict_get k (d1 ++ (f, v) :: d2) = dict_get k (d1 ++ d2).
Proof.
  intros Hk. induction d1 as [|[k0 v0] d1 IH]; cbn [app dict_get].
  - now rewrite (proj2 (eqb_neq k f) Hk).
  - now rewrite IH.
Qed.

End PyFacts.

(** ** Properties of [scripts/validate_weapons.py] *)

Module WeaponsSpec.
Import Py PyFacts Weapons.
Local Open Scope Z_scope.

(** *** The value conversion *)

Lemma int_group_digits (c : codepoint) (value_str group : pystr) :
  search_digits_then c value_str = Some group ->
  int_group group = Z.of_N (numeral_value group).
Proof.
  intros E. destruct (search_digits_then_decimal _ _ _ E) as [Hall Hne].
  unfold int_group. now rewrite int_decimal.
Qed.

Lemma int_group_decimal (digits : pystr) :
  Forall (fun d => isdecimal d = true) digits -> digits <> [] ->
  int_group digits = Z.of_N (numeral_value digits).
Proof. intros Hall Hne. unfold int_group. now rewrite int_decimal. Qed.

Lemma parse_value_nonempty (c : codepoint) (digits post : pystr) :
  Forall (fun d => isdecimal d = true) digits -> digits <> [] ->
  negb (truthy (digits ++ c :: post)) || eqb (digits ++ c :: post) (str "-")
  = false.
Proof.
  intros Hall Hne. destruct Hall as [|d digits Hd Hall]; [congruence|].
  simpl. destruct (N.eqb_spec d 45) as [->|]; [discriminate|reflexivity].
Qed.

(** C3.  Gold is worth 100 copper and silver 10: a string of decimal digits
    followed by [g] converts to 100 times its number, followed by [s] to 10
    times its number, and a gold amount followed by a silver amount to the
    sum of both; a text in which no digit is immediately followed by [g] or
    by [s] converts to 0.  In particular 1g is 100, 5s is 50, 1g5s is 150,
    and the dash and the empty string are 0. *)
Theorem value_conversion :
  parse_value_to_copper (str "1g") = 100 /\
  parse_value_to_copper (str "5s") = 50 /\
  parse_value_to_copper (str "1g5s") = 150 /\
  parse_value_to_copper (str "-") = 0 /\
  parse_value_to_copper (str "") = 0 /\
  (forall gold : pystr,
      Forall (fun d => isdecimal d = true) gold -> gold <> [] ->
      parse_value_to_copper (gold ++ str "g")
      = Z.of_N (numeral_value gold) * 100) /\
  (forall silver : pystr,
      Forall (fun d => isdecimal d = true) silver -> silver <> [] ->
      parse_value_to_copper (silver ++ str "s")
      = Z.of_N (numeral_value silver) * 10) /\
  (forall gold silver : pystr,
      Forall (fun d => isdecimal d = true) gold -> gold <> [] ->
      Forall (fun d => isdecimal d = true) silver -> silver <> [] ->
      parse_value_to_copper (gold ++ str "g" ++ silver ++ str "s")
      = Z.of_N (numeral_value gold) * 100 + Z.of_N (numeral_value silver) * 10) /\
  (forall value_str : pystr,
      ~ digit_then 103%N value_str -> ~ digit_then 115%N value_str ->
      parse_value_to_copper value_str = 0).
Proof.
  repeat split; try reflexivity.
  - intros gold Hall Hne. unfold parse_value_to_copper.
    change (str "g") with [103%N].
    rewrite parse_value_nonempty by assumption.
    rewrite search_digits_then_run by (auto; reflexivity).
    rewrite search_digits_then_other
      by (auto; try reflexivity; discriminate).
    simpl search_digits_then.
    rewrite int_group_decimal by assumption. lia.
  - intros silver Hall Hne. unfold parse_value_to_copper.
    change (str "s") with [115%N].
    rewrite parse_value_nonempty by assumption.
    rewrite (@search_digits_then_run 115%N)
      by (auto; reflexivity).
    rewrite search_digits_then_other
      by (auto; try reflexivity; discriminate).
    simpl search_digits_then.
    rewrite int_group_decimal by assumption. lia.
  - intros gold silver Hg Hgne Hs Hsne. unfold parse_value_to_copper.
    change (str "g" ++ silver ++ str "s") with (103%N :: silver ++ [115%N]).
    rewrite parse_value_nonempty by assumption.
    rewrite search_digits_then_run by (auto; reflexivity).
    rewrite (@search_digits_then_other 115%N 103%N)
      by (auto; try reflexivity; discriminate).
    rewrite (@search_digits_then_run 115%N) by (auto; reflexivity).
    rewrite !int_group_decimal by assumption. lia.
  - intros value_str Hg Hs. unfold parse_value_to_copper.
    rewrite !search_digits_then_None by assumption.
    now destruct (negb (truthy value_str) || eqb value_str (str "-")).
Qed.

Lemma value_conversion_witness :
  parse_value_to_copper (str "12g") = 1200 /\
  parse_value_to_copper (str "30s") = 300 /\
  parse_value_to_copper (str "2g15s") = 350 /\
  parse_value_to_copper (str "free") = 0.
Proof.
  destruct value_conversion as (_ & _ & _ & _ & _ & Hg & Hs & Hgs & Hz).
  split; [|split; [|split]].
  - apply (Hg (str "12")); [repeat constructor | discriminate].
  - apply (Hs (str "30")); [repeat constructor | discriminate].
  - apply (Hgs (str "2") (str "15"));
      try (repeat constructor); discriminate.
  - apply (Hz (str "free")).
    + intros (pre & d & post & E & Hd). revert E Hd.
      destruct pre as [|? [|? [|? [|? [|? pre]]]]]; simpl; intros [= ]; subst;
        try discriminate.
    + intros (pre & d & post & E & Hd). revert E Hd.
      destruct pre as [|? [|? [|? [|? [|? pre]]]]]; simpl; intros [= ]; subst;
        try discriminate.
Defined.

(** *** The grip check *)

(** C6.  The expected grip of the codes 1H, 2H, V and F is 1h, 2h,
    versatile and fist, also when the code is surrounded by whitespace;
    every other code gives its trimmed text in lower case.  The comparator
    reports a grip issue exactly when the generated grip differs from that
    expected grip. *)
Theorem grip_mapping {L : Lower} :
  expected_grip (str "1H") = str "1h" /\
  expected_grip (str "2H") = str "2h" /\
  expected_grip (str "V") = str "versatile" /\
  expected_grip (str "F") = str "fist" /\
  (forall code key expected,
      In (key, expected) grip_map -> strip code = key ->
      expected_grip code = expected) /\
  (forall code,
      ~ In (strip code) [str "1H"; str "2H"; str "V"; str "F"] ->
      expected_grip code = lower (strip code)) /\
  (forall src gen_system,
      grip_issues src gen_system = [] <->
      get (g_grip gen_system) [] = expected_grip (grip src)).
Proof.
  split; [reflexivity|]. split; [reflexivity|].
  split; [reflexivity|]. split; [reflexivity|].
  split; [|split].
  - intros code key expected Hin Hk. unfold expected_grip. rewrite Hk.
    simpl in Hin.
    destruct Hin as [E|[E|[E|[E|[]]]]]; injection E as <- <-; reflexivity.
  - intros code Hn. unfold expected_grip.
    assert (E : dict_get (strip code) grip_map = None).
    { unfold grip_map. cbn [dict_get].
      destruct (eqb (strip code) (str "1H")) eqn:E1;
        [apply eqb_eq in E1; exfalso; apply Hn; rewrite E1; simpl; tauto|].
      destruct (eqb (strip code) (str "2H")) eqn:E2;
        [apply eqb_eq in E2; exfalso; apply Hn; rewrite E2; simpl; tauto|].
      destruct (eqb (strip code) (str "V")) eqn:E3;
        [apply eqb_eq in E3; exfalso; apply Hn; rewrite E3; simpl; tauto|].
      destruct (eqb (strip code) (str "F")) eqn:E4;
        [apply eqb_eq in E4; exfalso; apply Hn; rewrite E4; simpl; tauto|].
      reflexivity. }
    now rewrite E.
  - intros src gen_system. unfold grip_issues.
    destruct (eqb (expected_grip (grip src)) (get (g_grip gen_system) []))
      eqn:E; simpl.
    + apply eqb_eq in E. split; congruence.
    + apply eqb_neq in E. split; [discriminate | congruence].
Qed.

Lemma grip_mapping_witness :
  expected_grip (L := ascii_lower) (str " 2H ") = str "2h" /\
  expected_grip (L := ascii_lower) (str " Claw ") = str "claw".
Proof.
  destruct (grip_mapping (L := ascii_lower))
    as (_ & _ & _ & _ & Htable & Hother & _).
  split.
  - apply (Htable (str " 2H ") (str "2H")); [simpl; tauto | reflexivity].
  - apply (Hother (str " Claw ")).
    vm_compute. intros [E|[E|[E|[E|[]]]]]; discriminate.
Defined.

(** *** The damage check *)

(** What the damage check accepts: the trimmed source damage itself, or the
    trimmed source damage behind a [1] when it does not begin with the
    character [1]. *)
Lemma damage_issues_nil (src : weapon) (gen_system : generated) :
  damage_issues src gen_system = [] <->
  get (g_damage gen_system) [] = strip (damage src) \/
  (startswith (str "1") (strip (damage src)) = false /\
   get (g_damage gen_system) [] = str "1" ++ strip (damage src)).
Proof.
  unfold damage_issues.
  set (s := strip (damage src)). set (g := get (g_damage gen_system) []).
  assert (E1 : startswith (str "1") s || eqb s (str "1") = startswith (str "1") s).
  { destruct (eqb s (str "1")) eqn:E; [|now rewrite orb_false_r].
    apply eqb_eq in E. now rewrite E. }
  rewrite E1.
  destruct (eqb s g) eqn:Es.
  - apply eqb_eq in Es. rewrite andb_false_r. split; auto.
  - apply eqb_neq in Es. rewrite andb_true_r.
    destruct (startswith (str "1") s) eqn:E.
    + rewrite (proj2 (eqb_neq s g) Es). simpl.
      split; [discriminate|]. intros [Hg|[Hf _]]; congruence.
    + destruct (eqb (str "1" ++ s) g) eqn:Ep; simpl.
      * apply eqb_eq in Ep. split; auto.
      * apply eqb_neq in Ep. split; [discriminate|].
        intros [Hg|[_ Hg]]; exfalso; [congruence | apply Ep; now rewrite Hg].
Qed.

(** The two cases the script's comment names, and one it does not accept. *)
Lemma damage_examples (w : weapon) (g : generated) :
  (damage w = str "d6" -> g_damage g = Some (str "1d6") -> damage_issues w g = []) /\
  (damage w = str "1d6" -> g_damage g = Some (str "1d6") -> damage_issues w g = []) /\
  (damage w = str "2d6" -> g_damage g = Some (str "d6") -> damage_issues w g <> []) /\
  (damage w = str "d6" -> g_damage g = Some (str "2d6") -> damage_issues w g <> []).
Proof.
  unfold damage_issues.
  repeat split; intros -> ->; cbv; congruence.
Qed.

(** A weapons table with a two-dice weapon, and a generated file whose
    damage puts a [1] in front of the source's count. *)
Definition two_dice_table : pystr :=
  str "| Weapon | Damage | Grip | Range | Properties | Value | Slots |" ++ newline ++
  str "|---|---|---|---|---|---|---|" ++ newline ++
  str "| Greatsword | 2d6 | 2H | Close | - | 5g | 2 |".

Definition two_dice_dir : directory :=
  [(str "greatsword.json",
    {| g_name := str "Greatsword"; g_damage := Some (str "12d6");
       g_grip := Some (str "2h"); g_slots := Some 2; g_value := Some 500 |})].

(** C1.  The source damage 2d6 has a count, and the generated damage 12d6
    differs from it; the damage check accepts it all the same, because every
    trimmed source damage that does not begin with the character [1] gets a
    [1] put in front, whether or not it carries a count of its own. *)
Theorem damage_count_not_recognised :
  dict_get (str "greatsword")
    (parse_source_weapons (L := ascii_lower) two_dice_table)
  = Some {| name := str "Greatsword"; damage := str "2d6"; grip := str "2H";
            range := str "Close"; properties := str "-"; value := str "5g";
            slots := str "2" |} /\
  compare_weapons (L := ascii_lower)
    (parse_source_weapons (L := ascii_lower) two_dice_table) two_dice_dir = [].
Proof. split; vm_compute; reflexivity. Qed.

(** *** The slots check *)

Definition issues_of (d : discrepancy) : list issue :=
  match d with
  | FieldMismatch _ _ issues => issues
  | _ => []
  end.

Definition is_slots (i : issue) : bool :=
  match i with Slots _ _ => true | _ => false end.

(** The slots lines among the issues that the comparator reports for a
    file. *)
Definition slots_reported {L : Lower} (source : dict weapon)
  (weapons_dir : directory) (filename : pystr) : list issue :=
  filter is_slots (flat_map issues_of (compare_file source weapons_dir filename)).

Lemma slots_reported_eq {L : Lower} (source : dict weapon)
  (weapons_dir : directory) (filename : pystr) (generated : generated)
  (src : weapon) :
  endswith json_suffix filename = true ->
  dict_get filename weapons_dir = Some generated ->
  dict_get (lower (g_name generated)) source = Some src ->
  slots_reported source weapons_dir filename = slots_issues src generated.
Proof.
  intros Hj Hf Hs. unfold slots_reported, compare_file.
  rewrite Hj, Hf, Hs. cbn [negb].
  set (issues := damage_issues src generated ++ grip_issues src generated
                 ++ slots_issues src generated ++ value_issues src generated).
  assert (E : flat_map issues_of
                match issues with
                | [] => []
                | _ :: _ => [FieldMismatch (g_name generated) filename issues]
                end = issues).
  { destruct issues; simpl; [reflexivity | now rewrite app_nil_r]. }
  rewrite E. unfold issues. rewrite !filter_app.
  assert (Ed : filter is_slots (damage_issues src generated) = []).
  { unfold damage_issues.
    now destruct (negb _ && negb _). }
  assert (Eg : filter is_slots (grip_issues src generated) = []).
  { unfold grip_issues. now destruct (negb _). }
  assert (Ev : filter is_slots (value_issues src generated) = []).
  { unfold value_issues. now destruct (negb _). }
  assert (Es : filter is_slots (slots_issues src generated)
               = slots_issues src generated).
  { unfold slots_issues. destruct (src_slots src); [|reflexivity].
    now destruct (negb _). }
  rewrite Ed, Eg, Ev, Es. simpl. now rewrite app_nil_r.
Qed.

(** C4.  For a generated file whose weapon is in the source: when the
    trimmed slots field is the dash or empty, the source count is 0 and a
    slots issue is reported exactly when the generated count is not 0; when
    [int] reads the field, its number is compared with the generated count;
    and when [int] fails on the field, no slots issue is reported for the
    weapon, whatever the generated count is. *)
Theorem slots_parsing {L : Lower} (source : dict weapon)
  (weapons_dir : directory) (filename : pystr) (generated : generated)
  (src : weapon) :
  endswith json_suffix filename = true ->
  dict_get filename weapons_dir = Some generated ->
  dict_get (lower (g_name generated)) source = Some src ->
  (strip (slots src) = str "-" \/ strip (slots src) = [] ->
   slots_reported source weapons_dir filename =
   if 0 =? get (g_slots generated) 0 then []
   else [Slots 0 (get (g_slots generated) 0)]) /\
  (forall n,
      strip (slots src) <> str "-" -> strip (slots src) <> [] ->
      int (strip (slots src)) = Some n ->
      slots_reported source weapons_dir filename =
      if n =? get (g_slots generated) 0 then []
      else [Slots n (get (g_slots generated) 0)]) /\
  (strip (slots src) <> str "-" -> strip (slots src) <> [] ->
   int (strip (slots src)) = None ->
   slots_reported source weapons_dir filename = []).
Proof.
  intros Hj Hf Hs.
  rewrite (slots_reported_eq _ _ _ _ _ Hj Hf Hs).
  unfold slots_issues, src_slots.
  split; [|split].
  - intros Hp.
    assert (E : mem (strip (slots src)) [str "-"; []] = true).
    { apply mem_In. simpl. destruct Hp; auto. }
    rewrite E. simpl negb. cbv iota.
    now destruct (0 =? get (g_slots generated) 0).
  - intros n H1 H2 Hi.
    assert (E : mem (strip (slots src)) [str "-"; []] = false).
    { apply mem_false. simpl. intros [E|[E|[]]]; congruence. }
    rewrite E, Hi. simpl negb. cbv iota.
    now destruct (n =? get (g_slots generated) 0).
  - intros H1 H2 Hi.
    assert (E : mem (strip (slots src)) [str "-"; []] = false).
    { apply mem_false. simpl. intros [E|[E|[]]]; congruence. }
    now rewrite E, Hi.
Qed.

(** A source whose slots field is not a number, a placeholder and a number. *)
Definition slots_source (field : pystr) : dict weapon :=
  [(str "club",
    {| name := str "Club"; damage := str "d6"; grip := str "1H";
       range := str "Close"; properties := str "-"; value := str "1s";
       slots := field |})].

Definition slots_dir (count : Z) : directory :=
  [(str "club.json",
    {| g_name := str "Club"; g_damage := Some (str "1d6");
       g_grip := Some (str "1h"); g_slots := Some count;
       g_value := Some 10 |})].

Lemma slots_parsing_witness :
  slots_reported (L := ascii_lower) (slots_source (str "-")) (slots_dir 1)
    (str "club.json") = [Slots 0 1] /\
  slots_reported (L := ascii_lower) (slots_source (str " 2")) (slots_dir 1)
    (str "club.json") = [Slots 2 1] /\
  slots_reported (L := ascii_lower) (slots_source (str "two")) (slots_dir 1)
    (str "club.json") = [].
Proof.
  split; [|split].
  - refine (proj1 (@slots_parsing ascii_lower (slots_source (str "-"))
                     (slots_dir 1) (str "club.json") _ _ eq_refl eq_refl eq_refl) _).
    left. reflexivity.
  - refine (proj1 (proj2 (@slots_parsing ascii_lower (slots_source (str " 2"))
                     (slots_dir 1) (str "club.json") _ _ eq_refl eq_refl eq_refl))
              2 _ _ _); [discriminate | discriminate | reflexivity].
  - refine (proj2 (proj2 (@slots_parsing ascii_lower (slots_source (str "two"))
                     (slots_dir 1) (str "club.json") _ _ eq_refl eq_refl eq_refl))
              _ _ _); [discriminate | discriminate | reflexivity].
Defined.

(** The slots check as the claim words it: a field that is not a number is
    treated as 0 and compared like any other count. *)
Definition claimed_src_slots (src : weapon) : Z :=
  match int (strip (slots src)) with
  | Some n => n
  | None => 0
  end.

Definition claimed_slots_issues (src : weapon) (gen_system : generated)
  : list issue :=
  if negb (claimed_src_slots src =? get (g_slots gen_system) 0)
  then [Slots (claimed_src_slots src) (get (g_slots gen_system) 0)] else [].

(** The field [two] is not a number.  Treated as 0 it would differ from the
    generated count 3; the comparator reports no slots issue, because [int]
    raises on it and the check is skipped.  Only the dash and the empty
    field are treated as 0. *)
Lemma non_numeric_slots_skipped :
  dict_get (str "club") (slots_source (str "two"))
  = Some {| name := str "Club"; damage := str "d6"; grip := str "1H";
            range := str "Close"; properties := str "-"; value := str "1s";
            slots := str "two" |} /\
  claimed_slots_issues
    {| name := str "Club"; damage := str "d6"; grip := str "1H";
       range := str "Close"; properties := str "-"; value := str "1s";
       slots := str "two" |}
    {| g_name := str "Club"; g_damage := Some (str "1d6");
       g_grip := Some (str "1h"); g_slots := Some 3; g_value := Some 10 |}
  = [Slots 0 3] /\
  slots_reported (L := ascii_lower) (slots_source (str "two")) (slots_dir 3)
    (str "club.json") = [] /\
  compare_weapons (L := ascii_lower) (slots_source (str "two")) (slots_dir 3)
  = [].
Proof.
  split; [|split; [|split]]; vm_compute; reflexivity.
Qed.

(** The scenario of the dagger row: the generated record agrees with the
    source on every field. *)
Definition dagger_table : pystr :=
  str "| Weapon | Damage | Grip | Range | Properties | Value | Slots |" ++ newline ++
  str "|---|---|---|---|---|---|---|" ++ newline ++
  str "| Dagger | d4 | 1H | Close | Light | 2s | 1 |".

Example dagger_scenario :
  compare_weapons (L := ascii_lower)
    (parse_source_weapons (L := ascii_lower) dagger_table)
    [(str "dagger.json",
      {| g_name := str "Dagger"; g_damage := Some (str "1d4");
         g_grip := Some (str "1h"); g_slots := Some 1; g_value := Some 20 |})]
  = [].
Proof. vm_compute. reflexivity. Qed.

(** *** The weapon table parser *)

Definition pipe : codepoint := 124%N.

(** A table row written from its cells. *)
Definition row (cells : list pystr) : pystr :=
  str "|" ++ List.concat (List.map (fun cell => cell ++ str "|") cells).

Lemma split_cells (cells : list pystr) :
  Forall (fun cell => ~ In pipe cell) cells ->
  split (str "|") (List.concat (List.map (fun cell => cell ++ str "|") cells))
  = cells ++ [[]].
Proof.
  induction 1 as [|cell cells Hc _ IH]; [reflexivity|].
  cbn [List.map List.concat app]. rewrite <- app_assoc.
  change (str "|" ++ ?x) with (pipe :: x).
  change (str "|") with [pipe].
  rewrite split_char_field by assumption.
  change [pipe] with (str "|"). now rewrite IH.
Qed.

Lemma split_row (cells : list pystr) :
  Forall (fun cell => ~ In pipe cell) cells ->
  slice_1_m1 (split (str "|") (row cells)) = cells.
Proof.
  intros Hc. unfold row.
  change (str "|" ++ ?x) with ([] ++ pipe :: x).
  change (str "|") with [pipe].
  rewrite split_char_field by (intros []).
  change [pipe] with (str "|"). rewrite split_cells by assumption.
  unfold slice_1_m1. cbn [tl]. apply removelast_last.
Qed.

Lemma count_row (cells : list pystr) :
  (List.length cells < count pipe (row cells))%nat.
Proof.
  unfold row. rewrite count_app. change (count pipe (str "|")) with 1%nat.
  induction cells as [|cell cells IH]; [cbn; lia|].
  cbn [List.map List.concat List.length]. rewrite !count_app.
  change (count pipe (str "|")) with 1%nat. lia.
Qed.

Lemma slice_In {A} (x : A) (l : list A) : In x (slice_1_m1 l) -> In x l.
Proof.
  unfold slice_1_m1. intros H.
  destruct l as [|a l]; [exact H|]. right. cbn [tl] in H.
  induction l as [|b l IH]; [exact H|].
  destruct l as [|c l]; [destruct H|].
  destruct H as [<-|H]; [now left | right; auto].
Qed.

Lemma parts_clean (line part : pystr) :
  In part (List.map strip (slice_1_m1 (split (str "|") line))) ->
  strip part = part /\ ~ In pipe part.
Proof.
  intros H. apply in_map_iff in H as (x & <- & Hx).
  split; [apply strip_idempotent|].
  apply slice_In in Hx.
  pose proof (split_char_no_sep pipe line) as Hs.
  rewrite Forall_forall in Hs. intros Hin.
  apply (Hs x Hx). now apply strip_In.
Qed.

(** The cells of a record. *)
Definition cells_of (w : weapon) : list pystr :=
  [name w; damage w; grip w; range w; properties w; value w; slots w].

Definition parsed_record {L : Lower} (key : pystr) (w : weapon) : Prop :=
  key = lower (name w) /\ name w <> str "Weapon" /\
  Forall (fun cell => strip cell = cell /\ ~ In pipe cell) (cells_of w).

Lemma scan_line_parsed {L : Lower} (st : dict weapon * bool) (line : pystr) :
  (forall key w, In (key, w) (fst st) -> parsed_record key w) ->
  forall key w, In (key, w) (fst (scan_line st line)) -> parsed_record key w.
Proof.
  destruct st as [weapons in_table]. cbn [fst]. intros Hinv.
  unfold scan_line.
  destruct (contains table_header line); [exact Hinv|].
  destruct (in_table && startswith (str "|---") line); [exact Hinv|].
  destruct (in_table && startswith (str "|") line && (7 <=? count 124%N line)%nat).
  - pose proof (parts_clean line) as Hp.
    destruct (List.map strip (slice_1_m1 (split (str "|") line)))
      as [|p0 [|p1 [|p2 [|p3 [|p4 [|p5 [|p6 rest]]]]]]]; try exact Hinv.
    destruct (eqb p0 (str "Weapon")) eqn:E; cbn [negb]; [exact Hinv|].
    cbn [fst]. intros key w Hin.
    apply dict_set_In in Hin as [Hin|Hin]; [|auto].
    injection Hin as -> ->. split; [reflexivity|].
    split; [now apply eqb_neq|].
    unfold cells_of. cbn [name damage grip range properties value slots].
    repeat (apply Forall_cons; [apply Hp; cbn [In]; tauto|]).
    apply Forall_nil.
  - destruct (in_table && negb (startswith (str "|") line)); exact Hinv.
Qed.

(** X1.  The records of the weapon parser.  Every entry is keyed by the
    lower-cased name of its record; the name is never the column title
    [Weapon]; and each of the seven cells is trimmed and holds no pipe. *)
Theorem parsed_weapons_are_clean {L : Lower} (text key : pystr) (w : weapon) :
  dict_get key (parse_source_weapons text) = Some w ->
  key = lower (name w) /\ name w <> str "Weapon" /\
  Forall (fun cell => strip cell = cell /\ ~ In pipe cell) (cells_of w).
Proof.
  intros Hg. apply dict_get_In in Hg. revert key w Hg.
  unfold parse_source_weapons.
  assert (H : forall lines st,
             (forall key w, In (key, w) (fst st) -> parsed_record key w) ->
             forall key w, In (key, w) (fst (fold_left scan_line lines st)) ->
                           parsed_record key w).
  { induction lines as [|line lines IH]; intros st Hinv; [exact Hinv|].
    cbn [fold_left]. apply IH. now apply scan_line_parsed. }
  apply H. intros key w [].
Qed.

Lemma parsed_weapons_are_clean_witness :
  str "dagger" = ascii_lower (str "Dagger") /\ str "Dagger" <> str "Weapon" /\
  Forall (fun cell => strip cell = cell /\ ~ In pipe cell)
    [str "Dagger"; str "d4"; str "1H"; str "Close"; str "Light"; str "2s";
     str "1"].
Proof.
  apply (parsed_weapons_are_clean (L := ascii_lower) dagger_table (str "dagger")
           {| name := str "Dagger"; damage := str "d4"; grip := str "1H";
              range := str "Close"; properties := str "Light";
              value := str "2s"; slots := str "1" |}).
  vm_compute. reflexivity.
Defined.

(** X2.  Rows are read only inside a table.  When no line of the text holds
    the header of the weapons table, nothing is parsed, whatever rows the
    text has. *)
Theorem no_table_no_weapons {L : Lower} (text : pystr) :
  Forall (fun line => contains table_header line = false)
    (split newline text) ->
  parse_source_weapons text = [].
Proof.
  intros Hl. unfold parse_source_weapons.
  assert (H : forall lines weapons,
             Forall (fun line => contains table_header line = false) lines ->
             fold_left scan_line lines (weapons, false) = (weapons, false)).
  { induction lines as [|line lines IH]; intros weapons Hall; [reflexivity|].
    inversion Hall as [|? ? Hh Hrest]; subst.
    cbn [fold_left]. unfold scan_line at 2. rewrite Hh. cbn [andb].
    now apply IH. }
  now rewrite H.
Qed.

Lemma no_table_no_weapons_witness :
  parse_source_weapons (L := ascii_lower)
    (str "| Dagger | d4 | 1H | Close | Light | 2s | 1 |" ++ newline ++
     str "| Club | d6 | 1H | Close | - | 1s | 1 |") = [].
Proof.
  apply (no_table_no_weapons (L := ascii_lower)).
  vm_compute. repeat constructor.
Defined.

(** X3.  A row of a table is read cell by cell.  Inside a table, a row
    written from seven or more pipe-free cells, which is neither a header
    row nor a separator row and whose first cell is not [Weapon], stores the
    record of its first seven cells, trimmed, under the lower-cased name;
    further cells are ignored. *)
Theorem row_is_parsed {L : Lower} (weapons : dict weapon)
  (c0 c1 c2 c3 c4 c5 c6 : pystr) (more : list pystr) :
  Forall (fun cell => ~ In pipe cell)
    (c0 :: c1 :: c2 :: c3 :: c4 :: c5 :: c6 :: more) ->
  contains table_header (row (c0 :: c1 :: c2 :: c3 :: c4 :: c5 :: c6 :: more))
  = false ->
  startswith (str "---") c0 = false ->
  strip c0 <> str "Weapon" ->
  scan_line (weapons, true) (row (c0 :: c1 :: c2 :: c3 :: c4 :: c5 :: c6 :: more))
  = (dict_set (lower (strip c0))
       {| name := strip c0; damage := strip c1; grip := strip c2;
          range := strip c3; properties := strip c4; value := strip c5;
          slots := strip c6 |} weapons,
     true).
Proof.
  intros Hc Hh Hs Hw. unfold scan_line. rewrite Hh.
  set (cells := c0 :: c1 :: c2 :: c3 :: c4 :: c5 :: c6 :: more) in *.
  assert (E1 : startswith (str "|---") (row cells) = false).
  { unfold row, cells. cbn [List.map List.concat].
    change (str "|---") with (pipe :: str "---").
    change (str "|" ++ ?x) with (pipe :: x).
    cbn [startswith]. rewrite N.eqb_refl. cbn [andb].
    destruct c0 as [|a [|b [|c t]]]; cbn [app startswith] in *;
      rewrite ?andb_false_r; try reflexivity; try exact Hs. }
  assert (E2 : startswith (str "|") (row cells) = true) by reflexivity.
  assert (E3 : (7 <=? count 124%N (row cells))%nat = true).
  { apply Nat.leb_le. pose proof (count_row cells) as Hn.
    unfold pipe in Hn. unfold cells in Hn at 1. cbn [List.length] in Hn. lia. }
  rewrite E1, E2, E3. cbn [andb].
  rewrite (split_row cells Hc). unfold cells. cbn [List.map].
  now rewrite (proj2 (eqb_neq _ _) Hw).
Qed.

Lemma row_is_parsed_witness :
  scan_line (L := ascii_lower) ([], true)
    (row [str " Dagger "; str " d4 "; str " 1H "; str " Close "; str " Light ";
          str " 2s "; str " 1 "; str " a note "])
  = (dict_set (lower (Lower := ascii_lower) (strip (str " Dagger ")))
       {| name := strip (str " Dagger "); damage := strip (str " d4 ");
          grip := strip (str " 1H "); range := strip (str " Close ");
          properties := strip (str " Light "); value := strip (str " 2s ");
          slots := strip (str " 1 ") |} [],
     true).
Proof.
  apply (row_is_parsed (L := ascii_lower)).
  - repeat (apply Forall_cons;
            [vm_compute; intros H;
             repeat (destruct H as [H|H]; [discriminate H|]); exact H|]).
    apply Forall_nil.
  - vm_compute. reflexivity.
  - vm_compute. reflexivity.
  - vm_compute. discriminate.
Defined.

(** *** More on the value conversion *)

(** X4.  A value is a whole number of silver pieces.  Whatever the text, the
    conversion gives a non-negative multiple of 10: copper amounts and any
    other unit are never counted. *)
Theorem value_is_tens_of_copper (value_str : pystr) :
  exists n : N, parse_value_to_copper value_str = 10 * Z.of_N n.
Proof.
  unfold parse_value_to_copper.
  destruct (negb (truthy value_str) || eqb value_str (str "-"));
    [now exists 0%N|].
  destruct (search_digits_then 103%N value_str) as [gold|] eqn:Eg;
    destruct (search_digits_then 115%N value_str) as [silver|] eqn:Es;
    rewrite ?(int_group_digits _ _ _ Eg), ?(int_group_digits _ _ _ Es).
  - exists (10 * numeral_value gold + numeral_value silver)%N. lia.
  - exists (10 * numeral_value gold)%N. lia.
  - exists (numeral_value silver). lia.
  - now exists 0%N.
Qed.

(** X5.  The order of the two amounts does not matter, and only the first
    amount of each metal counts.  A silver amount written before the gold
    amount gives the same sum as the usual order, and of two gold amounts
    the second is ignored. *)
Theorem value_order_and_repeats (gold silver other : pystr) :
  Forall (fun d => isdecimal d = true) gold -> gold <> [] ->
  Forall (fun d => isdecimal d = true) silver -> silver <> [] ->
  Forall (fun d => isdecimal d = true) other -> other <> [] ->
  parse_value_to_copper (silver ++ str "s" ++ gold ++ str "g")
  = parse_value_to_copper (gold ++ str "g" ++ silver ++ str "s") /\
  parse_value_to_copper (gold ++ str "g" ++ other ++ str "g")
  = Z.of_N (numeral_value gold) * 100.
Proof.
  intros Hg Hgne Hs Hsne Ho Hone. split.
  - unfold parse_value_to_copper.
    change (str "s" ++ gold ++ str "g") with (115%N :: gold ++ [103%N]).
    change (str "g" ++ silver ++ str "s") with (103%N :: silver ++ [115%N]).
    rewrite !parse_value_nonempty by assumption.
    rewrite (@search_digits_then_other 103%N 115%N)
      by (auto; try reflexivity; discriminate).
    rewrite (@search_digits_then_run 103%N) by (auto; reflexivity).
    rewrite (@search_digits_then_run 115%N) by (auto; reflexivity).
    rewrite (@search_digits_then_run 103%N) by (auto; reflexivity).
    rewrite (@search_digits_then_other 115%N 103%N)
      by (auto; try reflexivity; discriminate).
    rewrite (@search_digits_then_run 115%N) by (auto; reflexivity).
    reflexivity.
  - unfold parse_value_to_copper.
    change (str "g" ++ other ++ str "g") with (103%N :: other ++ [103%N]).
    rewrite parse_value_nonempty by assumption.
    rewrite (@search_digits_then_run 103%N) by (auto; reflexivity).
    rewrite (@search_digits_then_other 115%N 103%N)
      by (auto; try reflexivity; discriminate).
    rewrite (@search_digits_then_other 115%N 103%N)
      by (auto; try reflexivity; discriminate).
    cbn [search_digits_then match_digits_then].
    rewrite int_group_decimal by assumption. lia.
Qed.

Lemma value_order_and_repeats_witness :
  parse_value_to_copper (str "5s" ++ str "1g")
  = parse_value_to_copper (str "1g" ++ str "5s") /\
  parse_value_to_copper (str "1g" ++ str "7g") = Z.of_N (numeral_value (str "1")) * 100.
Proof.
  apply (value_order_and_repeats (str "1") (str "5") (str "7"));
    try (repeat constructor); discriminate.
Defined.

(** *** What the comparator accepts and what it reports *)

Lemma grip_issues_nil {L : Lower} (src : weapon) (gen_system : generated) :
  grip_issues src gen_system = [] <->
  get (g_grip gen_system) [] = expected_grip (grip src).
Proof.
  unfold grip_issues.
  destruct (eqb (expected_grip (grip src)) (get (g_grip gen_system) [])) eqn:E;
    cbn [negb].
  - apply eqb_eq in E. split; congruence.
  - apply eqb_neq in E. split; [discriminate | congruence].
Qed.

Lemma slots_issues_nil (src : weapon) (gen_system : generated) :
  slots_issues src gen_system = [] <->
  src_slots src = None \/ src_slots src = Some (get (g_slots gen_system) 0).
Proof.
  unfold slots_issues. destruct (src_slots src) as [n|]; [|tauto].
  destruct (Z.eqb_spec n (get (g_slots gen_system) 0)) as [->|Hn]; cbn [negb].
  - tauto.
  - split; [discriminate|]. intros [H|H]; [discriminate | congruence].
Qed.

Lemma value_issues_nil (src : weapon) (gen_system : generated) :
  value_issues src gen_system = [] <->
  parse_value_to_copper (value src) = get (g_value gen_system) 0.
Proof.
  unfold value_issues.
  destruct (Z.eqb_spec (parse_value_to_copper (value src))
              (get (g_value gen_system) 0)) as [E|E]; cbn [negb].
  - tauto.
  - split; [discriminate | congruence].
Qed.

(** X6.  When a weapon passes.  For a generated file whose weapon is in the
    source, nothing is reported for the file exactly when the four checks
    pass: the generated damage is the trimmed source damage, or that damage
    behind a [1] when it does not begin with the character [1]; the
    generated grip is the expected grip; the source slots are unreadable or
    equal to the generated slots (0 when absent); and the source value in
    copper equals the generated value (0 when absent). *)
Theorem weapon_passes {L : Lower} (source : dict weapon)
  (weapons_dir : directory) (filename : pystr) (generated : generated)
  (src : weapon) :
  endswith json_suffix filename = true ->
  dict_get filename weapons_dir = Some generated ->
  dict_get (lower (g_name generated)) source = Some src ->
  (compare_file source weapons_dir filename = [] <->
   (get (g_damage generated) [] = strip (damage src) \/
    (startswith (str "1") (strip (damage src)) = false /\
     get (g_damage generated) [] = str "1" ++ strip (damage src))) /\
   get (g_grip generated) [] = expected_grip (grip src) /\
   (src_slots src = None \/ src_slots src = Some (get (g_slots generated) 0)) /\
   parse_value_to_copper (value src) = get (g_value generated) 0).
Proof.
  intros Hj Hf Hs. unfold compare_file. rewrite Hj, Hf, Hs. cbn [negb].
  rewrite <- damage_issues_nil, <- grip_issues_nil, <- slots_issues_nil,
    <- value_issues_nil.
  destruct (damage_issues src generated) as [|i1 l1];
    [|split; [discriminate | intros [H _]; discriminate]].
  destruct (grip_issues src generated) as [|i2 l2];
    [|split; [discriminate | intros (_ & H & _); discriminate]].
  destruct (slots_issues src generated) as [|i3 l3];
    [|split; [discriminate | intros (_ & _ & H & _); discriminate]].
  destruct (value_issues src generated) as [|i4 l4];
    [|split; [discriminate | intros (_ & _ & _ & H); discriminate]].
  cbn [app]. tauto.
Qed.

Lemma weapon_passes_witness :
  compare_file (L := ascii_lower) (slots_source (str "two")) (slots_dir 7)
    (str "club.json") = [].
Proof.
  apply (proj2 (@weapon_passes ascii_lower (slots_source (str "two"))
                  (slots_dir 7) (str "club.json")
                  {| g_name := str "Club"; g_damage := Some (str "1d6");
                     g_grip := Some (str "1h"); g_slots := Some 7;
                     g_value := Some 10 |}
                  {| name := str "Club"; damage := str "d6"; grip := str "1H";
                     range := str "Close"; properties := str "-";
                     value := str "1s"; slots := str "two" |}
                  eq_refl eq_refl eq_refl)).
  split; [right; split; reflexivity|].
  split; [reflexivity|]. split; [left; reflexivity | reflexivity].
Defined.

(** *** Unmatched entries *)

Lemma weapon_names_mem {L : Lower} (weapons_dir : directory) (key : pystr) :
  mem key (generated_names weapons_dir) = false <->
  forall filename generated,
    In (filename, generated) weapons_dir -> endswith json_suffix filename = true ->
    lower (g_name generated) <> key.
Proof.
  unfold generated_names. rewrite mem_set_of, mem_false, in_flat_map. split.
  - intros Hn filename generated Hin Hj E. apply Hn.
    exists (filename, generated). split; [assumption|].
    cbn [fst snd]. rewrite Hj. now left.
  - intros H ([filename generated] & Hin & Hk). cbn [fst snd] in Hk.
    destruct (endswith json_suffix filename) eqn:Hj; [|destruct Hk].
    destruct Hk as [Hk|[]]. exact (H filename generated Hin Hj Hk).
Qed.

(** X7.  The two kinds of unmatched entries.  A file is reported as not
    in the source exactly when it is a [.json] file of the directory whose
    lower-cased name is no key of the source; then none of its fields is
    compared.  A source record is reported as missing exactly when no
    [.json] file of the directory has its key as lower-cased name. *)
Theorem unmatched_weapons {L : Lower} (source : dict weapon) (weapons_dir : directory) :
  (forall item file,
      In (NotInSource item file) (compare_weapons source weapons_dir) <->
      endswith json_suffix file = true /\
      exists generated,
        dict_get file weapons_dir = Some generated /\ g_name generated = item /\
        dict_get (lower item) source = None) /\
  (forall item,
      In (Missing item) (compare_weapons source weapons_dir) <->
      exists key record,
        In (key, record) source /\ name record = item /\
        forall filename generated,
          In (filename, generated) weapons_dir ->
          endswith json_suffix filename = true ->
          lower (g_name generated) <> key).
Proof.
  split.
  - intros item file. unfold compare_weapons. rewrite in_app_iff, in_flat_map. split.
    + intros [(filename & Hf & Hin)|Hm].
      * unfold compare_file in Hin.
        destruct (endswith json_suffix filename) eqn:Hj; [|destruct Hin].
        cbn [negb] in Hin.
        destruct (dict_get filename weapons_dir) as [generated|] eqn:Hg;
          [|destruct Hin].
        destruct (dict_get (lower (g_name generated)) source) as [src|] eqn:Hs.
        -- destruct (damage_issues src generated ++ grip_issues src generated ++ slots_issues src generated ++ value_issues src generated) in Hin;
             [destruct Hin | destruct Hin as [Hin|[]]; discriminate].
        -- destruct Hin as [Hin|[]]. injection Hin as <- <-.
           split; [assumption|]. now exists generated.
      * unfold missing in Hm. apply in_flat_map in Hm as (e & _ & He).
        destruct (negb _); [destruct He as [He|[]]; discriminate | destruct He].
    + intros (Hj & generated & Hg & <- & Hs). left. exists file. split.
      * rewrite sorted_In. apply dict_get_In in Hg. unfold keys.
        change file with (fst (file, generated)). now apply in_map.
      * unfold compare_file. rewrite Hj, Hg, Hs. now left.
  - intros item. unfold compare_weapons. rewrite in_app_iff. split.
    + intros [Hin|Hm].
      * apply in_flat_map in Hin as (filename & _ & Hin).
        unfold compare_file in Hin.
        destruct (negb (endswith json_suffix filename)); [destruct Hin|].
        destruct (dict_get filename weapons_dir) as [generated|]; [|destruct Hin].
        destruct (dict_get (lower (g_name generated)) source) as [src|].
        -- destruct (damage_issues src generated ++ grip_issues src generated ++ slots_issues src generated ++ value_issues src generated) in Hin;
             [destruct Hin | destruct Hin as [Hin|[]]; discriminate].
        -- destruct Hin as [Hin|[]]. discriminate.
      * unfold missing in Hm. apply in_flat_map in Hm as ([key record] & Hs & He).
        cbn [fst snd] in He.
        destruct (mem key (generated_names weapons_dir)) eqn:Em;
          [destruct He|].
        destruct He as [He|[]]. injection He as <-.
        exists key, record. split; [assumption|]. split; [reflexivity|].
        now apply weapon_names_mem.
    + intros (key & record & Hs & <- & Hn). right.
      unfold missing. apply in_flat_map. exists (key, record).
      split; [assumption|]. cbn [fst snd].
      rewrite (proj2 (weapon_names_mem weapons_dir key) Hn). now left.
Qed.

End WeaponsSpec.

(** ** Properties of [scripts/validate_perks.py] *)

Module PerksSpec.
Import Py PyFacts Perks.

(** *** The perk parser *)

(** The lines of a block that reach the description. *)
Definition described (line : pystr) : bool :=
  negb (startswith prerequisite_marker line)
  && (truthy (strip line) && negb (startswith (str "---") line)).

Lemma scan_line_lines (body : list pystr) (st : pystr * list pystr) :
  snd (fold_left scan_line body st) = snd st ++ filter described body.
Proof.
  revert st; induction body as [|line body IH]; intros [prereq lines].
  - cbn [fold_left filter snd]. now rewrite app_nil_r.
  - cbn [fold_left filter]. rewrite IH. unfold scan_line, described.
    destruct (startswith prerequisite_marker line); cbn [negb andb snd];
      [reflexivity|].
    destruct (truthy (strip line) && negb (startswith (str "---") line));
      cbn [snd]; [|reflexivity].
    now rewrite <- app_assoc.
Qed.

Lemma scan_lines_Some (lines : list pystr) (p : perk) :
  scan_lines lines = Some p ->
  name p = strip (hd [] lines) /\
  ~ In (name p) category_headers /\
  name p <> [] /\ description p <> [] /\
  description p = strip (join (str " ") (filter described (tl lines))).
Proof.
  destruct lines as [|header body]; [discriminate|].
  unfold scan_lines. cbn [hd tl].
  destruct (mem (strip header) category_headers) eqn:Ec; [discriminate|].
  pose proof (scan_line_lines body ([], [])) as Hl.
  destruct (fold_left scan_line body ([], [])) as [prereq dl].
  cbn [snd app] in Hl. subst dl.
  destruct (truthy (strip header)) eqn:En; [|discriminate].
  destruct (truthy (strip (join (str " ") (filter described body)))) eqn:Ed;
    [|discriminate].
  cbn [andb]. intros [= <-]. cbn [name description].
  repeat split.
  - now apply mem_false.
  - now apply truthy_true.
  - now apply truthy_true.
Qed.

(** Every entry of a parsed dictionary comes from a block that produced a
    record. *)
Definition from_records {L : Lower} (perks : dict perk) : Prop :=
  forall key p, In (key, p) perks ->
    key = lower (name p) /\ exists lines, scan_lines lines = Some p.

Lemma scan_block_from_records {L : Lower} (perks : dict perk) (block : pystr) :
  from_records perks -> from_records (scan_block perks block).
Proof.
  intros Hinv. unfold scan_block.
  destruct (scan_lines (split newline (strip block))) as [p|] eqn:E;
    [|assumption].
  intros key q Hin. apply dict_set_In in Hin as [Hin|Hin]; [|auto].
  injection Hin as -> ->. split; [reflexivity | eauto].
Qed.

Lemma fold_scan_block_from_records {L : Lower} (blocks : list pystr)
  (perks : dict perk) :
  from_records perks -> from_records (fold_left scan_block blocks perks).
Proof.
  revert perks; induction blocks as [|b blocks IH]; intros perks Hinv; simpl.
  - assumption.
  - apply IH. now apply scan_block_from_records.
Qed.

Lemma parse_source_perks_from_records {L : Lower} (text : pystr) :
  from_records (parse_source_perks text).
Proof.
  unfold parse_source_perks. apply fold_scan_block_from_records.
  intros key p [].
Qed.

Lemma category_header_clean (c : pystr) :
  In c category_headers ->
  ~ In 10%N c /\ starts_word c = true /\ rstrip c = c /\ strip c = c.
Proof.
  intros [<-|[<-|[<-|[]]]]; (split; [|repeat split]);
    vm_compute; intuition discriminate.
Qed.

(** C8.  A block whose header line is one of the three category headers
    produces no record: the scan of its lines gives nothing, and the block
    leaves the dictionary as it was.  Hence no entry of the parsed mapping
    comes from a category header: every key is the lower-cased name of a
    record whose name is not a category header, and, lower-casing never
    giving a category header back, no key is a category header. *)
Theorem category_headers_skipped {L : Lower} :
  (forall header body,
      In (strip header) category_headers -> scan_lines (header :: body) = None) /\
  (forall perks c body,
      In c category_headers ->
      scan_block perks (c ++ newline ++ body) = perks) /\
  (forall text key p,
      dict_get key (parse_source_perks text) = Some p ->
      key = lower (name p) /\ ~ In (name p) category_headers) /\
  (forall text c,
      (forall s, lower s <> c) -> In c category_headers ->
      ~ In c (keys (parse_source_perks text))).
Proof.
  split; [|split; [|split]].
  - intros header body Hc. unfold scan_lines.
    now rewrite (proj2 (mem_In _ _) Hc).
  - intros perks c body Hc.
    destruct (category_header_clean c Hc) as (Hn & Hw & Hr & Hs).
    destruct (first_line_of_strip c body Hn Hw Hr) as [lines El].
    unfold scan_block. rewrite El. unfold scan_lines. rewrite Hs.
    now rewrite (proj2 (mem_In _ _) Hc).
  - intros text key p Hg. apply dict_get_In in Hg.
    destruct (parse_source_perks_from_records text _ _ Hg) as [Hk [lines Hl]].
    split; [assumption|]. now apply scan_lines_Some in Hl.
  - intros text c Hlow Hc Hin. unfold keys in Hin.
    apply in_map_iff in Hin as ([key p] & Hk & Hin). simpl in Hk. subst key.
    destruct (parse_source_perks_from_records text _ _ Hin) as [Hk _].
    exact (Hlow _ (eq_sym Hk)).
Qed.

Definition category_text : pystr :=
  str "## Full Perk Descriptions" ++ newline ++
  str "### No Prerequisites" ++ newline ++
  str "These perks are open to everyone." ++ newline ++
  str "### Tough" ++ newline ++
  str "You gain 2 health.".

Lemma category_headers_skipped_witness :
  scan_lines [str "Spell-Based Perks "; str "Perks for casters."] = None /\
  scan_block (L := ascii_lower) []
    (str "No Prerequisites" ++ newline ++ str "Open to everyone.") = [] /\
  (str "tough" = ascii_lower (str "Tough") /\
   ~ In (str "Tough") category_headers) /\
  ~ In (str "No Prerequisites")
      (keys (parse_source_perks (L := ascii_lower) category_text)).
Proof.
  destruct (category_headers_skipped (L := ascii_lower))
    as (Hlines & Hblock & Hkey & Hnever).
  split; [|split; [|split]].
  - apply Hlines. vm_compute. tauto.
  - apply Hblock. vm_compute. tauto.
  - apply (Hkey category_text (str "tough")
             {| name := str "Tough"; prerequisite := [];
                description := str "You gain 2 health." |}).
    vm_compute. reflexivity.
  - apply Hnever; [|vm_compute; tauto].
    intros s E.
    apply (ascii_lower_no_upper s 78%N); [|lia].
    change (@lower ascii_lower s) with (ascii_lower s) in E.
    rewrite E. vm_compute. tauto.
Defined.

(** A line that is a prerequisite line, a separator line or blank. *)
Definition undescribed (line : pystr) : Prop :=
  startswith prerequisite_marker line = true \/
  startswith (str "---") line = true \/
  strip line = [].

Lemma filter_described_undescribed (body : list pystr) :
  Forall undescribed body -> filter described body = [].
Proof.
  induction 1 as [|line body Hl _ IH]; [reflexivity|].
  cbn [filter]. rewrite IH. unfold described.
  destruct Hl as [E|[E|E]]; rewrite E; cbn [negb andb truthy];
    rewrite ?andb_false_r; reflexivity.
Qed.

Lemma filter_described_prerequisite (body : list pystr) :
  filter described
    (filter (fun line => negb (startswith prerequisite_marker line)) body)
  = filter described body.
Proof.
  induction body as [|line body IH]; [reflexivity|].
  cbn [filter]. unfold described at 2.
  destruct (startswith prerequisite_marker line) eqn:E; cbn [negb andb].
  - exact IH.
  - cbn [filter]. unfold described at 1. rewrite E. cbn [negb andb].
    now rewrite IH.
Qed.

Lemma scan_lines_description (header : pystr) (body : list pystr) :
  option_map description (scan_lines (header :: body)) =
  if mem (strip header) category_headers then None
  else if truthy (strip header)
          && truthy (strip (join (str " ") (filter described body)))
  then Some (strip (join (str " ") (filter described body)))
  else None.
Proof.
  unfold scan_lines.
  destruct (mem (strip header) category_headers); [reflexivity|].
  pose proof (scan_line_lines body ([], [])) as Hl.
  destruct (fold_left scan_line body ([], [])) as [prereq dl].
  cbn [snd app] in Hl. subst dl.
  now destruct (truthy (strip header) && truthy _).
Qed.

Definition prerequisite_only_text : pystr :=
  str "Perks" ++ newline ++
  str "### Tough" ++ newline ++
  str "**Prerequisite:** Might 4" ++ newline ++
  str "---" ++ newline.

(** C10.  A record of the parsed mapping has a non-empty name and a
    non-empty description, and a block gives a record only with both.  A
    block whose lines after the header are prerequisite lines, separator
    lines or blank gives no record, and leaves the dictionary as it was.
    The description is put together from the lines that do not start with
    the prerequisite marker: taking the prerequisite lines out of a block
    does not change the description. *)
Theorem record_needs_name_and_description {L : Lower} :
  (forall text key p,
      dict_get key (parse_source_perks text) = Some p ->
      name p <> [] /\ description p <> []) /\
  (forall lines p,
      scan_lines lines = Some p ->
      name p = strip (hd [] lines) /\ name p <> [] /\ description p <> []) /\
  (forall header body,
      Forall undescribed body -> scan_lines (header :: body) = None) /\
  (forall perks block,
      Forall undescribed (tl (split newline (strip block))) ->
      scan_block perks block = perks) /\
  parse_source_perks prerequisite_only_text = [] /\
  (forall header body p,
      scan_lines (header :: body) = Some p ->
      description p = strip (join (str " ") (filter described body)) /\
      Forall (fun line => startswith prerequisite_marker line = false)
        (filter described body)) /\
  (forall header body,
      option_map description (scan_lines (header :: body)) =
      option_map description
        (scan_lines
           (header ::
            filter (fun line => negb (startswith prerequisite_marker line))
              body))).
Proof.
  assert (Hnone : forall header body,
             Forall undescribed body -> scan_lines (header :: body) = None).
  { intros header body Hb.
    pose proof (scan_lines_description header body) as E.
    rewrite (filter_described_undescribed body Hb) in E.
    change (truthy (strip (join (str " ") []))) with false in E.
    rewrite andb_false_r in E.
    destruct (scan_lines (header :: body)); [|reflexivity].
    now destruct (mem (strip header) category_headers). }
  split; [|split; [|split; [|split; [|split; [|split]]]]].
  - intros text key p Hg. apply dict_get_In in Hg.
    destruct (parse_source_perks_from_records text _ _ Hg) as [_ [lines Hl]].
    apply scan_lines_Some in Hl. tauto.
  - intros lines p Hl. apply scan_lines_Some in Hl. tauto.
  - exact Hnone.
  - intros perks block Hb. unfold scan_block.
    destruct (split newline (strip block)) as [|header body]; [reflexivity|].
    now rewrite (Hnone header body Hb).
  - reflexivity.
  - intros header body p Hl. apply scan_lines_Some in Hl.
    split; [tauto|].
    apply Forall_forall. intros line Hin. apply filter_In in Hin as [_ Hd].
    unfold described in Hd. apply andb_true_iff in Hd as [Hd _].
    now apply negb_true_iff in Hd.
  - intros header body. rewrite !scan_lines_description.
    now rewrite filter_described_prerequisite.
Qed.

Lemma record_needs_name_and_description_witness :
  (str "Tough" <> [] /\ str "You gain 2 health." <> []) /\
  scan_lines [str "Tough"; str "**Prerequisite:** Might 4"; str "---"; str " "]
  = None /\
  scan_block (L := ascii_lower) []
    (str "Tough" ++ newline ++ str "**Prerequisite:** Might 4" ++ newline
     ++ str "---") = [] /\
  str "You gain 2 health."
  = strip (join (str " ")
             (filter described
                [str "**Prerequisite:** Might 4"; str "You gain 2 health."])).
Proof.
  destruct (record_needs_name_and_description (L := ascii_lower))
    as (Hrec & _ & Hlines & Hblock & _ & Hdesc & _).
  split; [|split; [|split]].
  - apply (Hrec category_text (str "tough")
             {| name := str "Tough"; prerequisite := [];
                description := str "You gain 2 health." |}).
    vm_compute. reflexivity.
  - apply Hlines.
    apply Forall_cons; [left; reflexivity|].
    apply Forall_cons; [right; left; reflexivity|].
    apply Forall_cons; [right; right; reflexivity|]. constructor.
  - apply Hblock.
    apply Forall_cons; [left; reflexivity|].
    apply Forall_cons; [right; left; reflexivity|]. constructor.
  - refine (proj1 (Hdesc (str "Tough")
                     [str "**Prerequisite:** Might 4"; str "You gain 2 health."]
                     {| name := str "Tough"; prerequisite := str "Might 4";
                        description := str "You gain 2 health." |} _)).
    vm_compute. reflexivity.
Defined.

(** *** The text normaliser *)

(** The three replacements of [normalize_text], as one map on code
    points: the right single quote becomes the apostrophe, and the two
    double curly quotes become the straight double quote. *)
Definition unquote (c : codepoint) : codepoint :=
  subst 8221%N 34%N (subst 8220%N 34%N (subst 8217%N 39%N c)).

Lemma unquote_cases (c : codepoint) :
  (c = 8217 /\ unquote c = 39)%N \/ (c = 8220 /\ unquote c = 34)%N \/
  (c = 8221 /\ unquote c = 34)%N \/
  (c <> 8217 /\ c <> 8220 /\ c <> 8221 /\ unquote c = c)%N.
Proof.
  unfold unquote, subst.
  destruct (N.eqb_spec 8217%N c) as [<-|H1]; [now left|].
  destruct (N.eqb_spec 8220%N c) as [<-|H2]; [right; now left|].
  destruct (N.eqb_spec 8221%N c) as [<-|H3]; [right; right; now left|].
  right; right; right. repeat split; congruence.
Qed.

Lemma unquote_isspace (c : codepoint) : isspace (unquote c) = isspace c.
Proof.
  destruct (unquote_cases c) as [[-> ->]|[[-> ->]|[[-> ->]|(_ & _ & _ & ->)]]];
    reflexivity.
Qed.

Lemma unquote_eqb (c x : codepoint) :
  (x = 60 \/ x = 62)%N -> N.eqb (unquote c) x = N.eqb c x.
Proof.
  intros Hx.
  destruct (unquote_cases c) as [[-> ->]|[[-> ->]|[[-> ->]|(_ & _ & _ & ->)]]];
    destruct Hx as [-> | ->]; reflexivity.
Qed.

Lemma unquote_idempotent (c : codepoint) : unquote (unquote c) = unquote c.
Proof.
  destruct (unquote_cases c) as [[-> ->]|[[-> ->]|[[-> ->]|(_ & _ & _ & E)]]];
    try reflexivity.
  now rewrite !E.
Qed.

Lemma replace_quotes (s : pystr) :
  replace [8221%N] [34%N] (replace [8220%N] [34%N] (replace [8217%N] [39%N] s))
  = List.map unquote s.
Proof. rewrite !replace_single, !map_map. reflexivity. Qed.

(** The normalised text is the words of the text without its tags, with
    straightened quotes, one space apart. *)
Definition normal_words (text : pystr) : list pystr :=
  List.map (List.map unquote) (words (remove_tags false text)).

Lemma normal_words_word (text : pystr) : Forall word (normal_words text).
Proof.
  unfold normal_words.
  rewrite <- words_map by apply unquote_isspace.
  apply words_word.
Qed.

Lemma normalize_text_words (text : pystr) :
  normalize_text text = join (str " ") (normal_words text).
Proof.
  unfold normalize_text. destruct text as [|c text]; [reflexivity|].
  cbn [truthy negb]. rewrite replace_quotes, join_map.
  change (List.map unquote (str " ")) with (str " ").
  apply strip_join. apply normal_words_word.
Qed.

(** Texts in which the tag pattern has no match. *)
Definition has_gt (s : pystr) : bool := existsb (N.eqb 62%N) s.

Fixpoint tagfree (s : pystr) : bool :=
  match s with
  | [] => true
  | c :: r => negb (N.eqb c 60%N && opens_tag r) && tagfree r
  end.

Lemma opens_tag_has_gt (r : pystr) : has_gt r = false -> opens_tag r = false.
Proof.
  destruct r as [|d r]; [reflexivity|].
  unfold has_gt. cbn [existsb opens_tag]. intros E.
  apply orb_false_iff in E as [_ E]. rewrite E. apply andb_false_r.
Qed.

Lemma remove_tags_has_gt (inside : bool) (s : pystr) :
  has_gt s = false -> has_gt (remove_tags inside s) = false.
Proof.
  revert inside; induction s as [|c r IH]; intros inside; [reflexivity|].
  unfold has_gt in *. cbn [existsb remove_tags]. intros E.
  apply orb_false_iff in E as [Ec Er].
  destruct inside; [now apply IH|].
  destruct (N.eqb c 60%N && opens_tag r); [now apply IH|].
  cbn [existsb]. rewrite Ec. now apply IH.
Qed.

Lemma remove_tags_opens_tag (r : pystr) :
  opens_tag r = false -> opens_tag (remove_tags false r) = false.
Proof.
  destruct r as [|d r]; [reflexivity|].
  intros E. cbn [opens_tag] in E.
  destruct (N.eqb_spec d 62%N) as [->|Hd].
  - reflexivity.
  - cbn [negb andb] in E. apply opens_tag_has_gt.
    apply remove_tags_has_gt. unfold has_gt. cbn [existsb].
    rewrite N.eqb_sym. now destruct (N.eqb_spec d 62%N).
Qed.

Lemma remove_tags_tagfree (inside : bool) (s : pystr) :
  tagfree (remove_tags inside s) = true.
Proof.
  revert inside; induction s as [|c r IH]; intros inside; [reflexivity|].
  cbn [remove_tags]. destruct inside; [apply IH|].
  destruct (N.eqb c 60%N && opens_tag r) eqn:E; [apply IH|].
  cbn [tagfree]. rewrite IH, andb_true_r.
  apply andb_false_iff in E as [E|E]; [now rewrite E|].
  rewrite (remove_tags_opens_tag _ E). now rewrite andb_false_r.
Qed.

Lemma remove_tags_of_tagfree (s : pystr) :
  tagfree s = true -> remove_tags false s = s.
Proof.
  induction s as [|c r IH]; [reflexivity|].
  cbn [tagfree remove_tags]. intros E.
  apply andb_true_iff in E as [E1 E2]. apply negb_true_iff in E1.
  rewrite E1. f_equal. auto.
Qed.

(** [' '.join(text.split())] *)
Definition collapse (s : pystr) : pystr := join (str " ") (words s).

Lemma collapse_space (c : codepoint) (r : pystr) :
  isspace c = true -> collapse (c :: r) = collapse r.
Proof. intros E. unfold collapse. cbn [words]. now rewrite E. Qed.

Lemma collapse_inside (c : codepoint) (r : pystr) :
  isspace c = false -> starts_word r = true ->
  collapse (c :: r) = c :: collapse r.
Proof.
  intros E Hr. unfold collapse. cbn [words]. rewrite E, Hr.
  destruct (words r) as [|w [|w' ws]]; reflexivity.
Qed.

Lemma collapse_end (c : codepoint) (r : pystr) :
  isspace c = false -> starts_word r = false ->
  collapse (c :: r) =
  c :: match words r with [] => [] | _ :: _ => 32%N :: collapse r end.
Proof.
  intros E Hr. unfold collapse. cbn [words]. rewrite E, Hr.
  destruct (words r) as [|w ws]; reflexivity.
Qed.

Lemma collapse_has_gt (s : pystr) :
  has_gt s = false -> has_gt (collapse s) = false.
Proof.
  induction s as [|c r IH]; [reflexivity|].
  unfold has_gt in *. cbn [existsb]. intros E.
  apply orb_false_iff in E as [Ec Er]. specialize (IH Er).
  destruct (isspace c) eqn:Es.
  - now rewrite collapse_space.
  - destruct (starts_word r) eqn:Hr.
    + rewrite collapse_inside by assumption. cbn [existsb]. now rewrite Ec.
    + rewrite collapse_end by assumption. cbn [existsb]. rewrite Ec.
      destruct (words r); [reflexivity|]. cbn [existsb]. exact IH.
Qed.

Lemma collapse_opens_tag (r : pystr) :
  opens_tag r = false ->
  (starts_word r = true -> opens_tag (collapse r) = false) /\
  (starts_word r = false -> has_gt (collapse r) = false).
Proof.
  destruct r as [|d r]; [split; reflexivity|].
  cbn [opens_tag starts_word]. intros E. split; intros Hd.
  - apply negb_true_iff in Hd.
    assert (Ec : exists t, collapse (d :: r) = d :: t).
    { destruct (starts_word r) eqn:Hr.
      - rewrite collapse_inside by assumption. eauto.
      - rewrite collapse_end by assumption. eauto. }
    destruct (N.eqb_spec d 62%N) as [->|Hn].
    + destruct Ec as [t ->]. reflexivity.
    + cbn [negb andb] in E. apply opens_tag_has_gt, collapse_has_gt.
      unfold has_gt. cbn [existsb]. rewrite N.eqb_sym.
      now destruct (N.eqb_spec d 62%N).
  - apply negb_false_iff in Hd.
    destruct (N.eqb_spec d 62%N) as [->|Hn]; [discriminate|].
    cbn [negb andb] in E. apply collapse_has_gt.
    unfold has_gt. cbn [existsb]. rewrite N.eqb_sym.
    now destruct (N.eqb_spec d 62%N).
Qed.

Lemma collapse_tagfree (s : pystr) :
  tagfree s = true -> tagfree (collapse s) = true.
Proof.
  induction s as [|c r IH]; [reflexivity|].
  cbn [tagfree]. intros E. apply andb_true_iff in E as [E1 E2].
  apply negb_true_iff in E1. specialize (IH E2).
  destruct (isspace c) eqn:Es.
  - now rewrite collapse_space.
  - assert (Eo : N.eqb c 60%N = true -> opens_tag r = false).
    { intros Ec. now rewrite Ec in E1. }
    destruct (starts_word r) eqn:Hr.
    + rewrite collapse_inside by assumption. cbn [tagfree]. rewrite IH.
      destruct (N.eqb c 60%N); [|reflexivity].
      now rewrite (proj1 (collapse_opens_tag r (Eo eq_refl)) Hr).
    + rewrite collapse_end by assumption.
      destruct (words r) eqn:Ew; [cbn; now rewrite andb_false_r|].
      cbn [tagfree opens_tag]. rewrite IH.
      change (N.eqb 32 60 && opens_tag (collapse r))%N with false.
      change (negb (N.eqb 32 62))%N with true. cbn [negb andb].
      destruct (N.eqb c 60%N); [|reflexivity].
      fold (has_gt (collapse r)).
      now rewrite (proj2 (collapse_opens_tag r (Eo eq_refl)) Hr).
Qed.

Lemma map_unquote_opens_tag (r : pystr) :
  opens_tag (List.map unquote r) = opens_tag r.
Proof.
  destruct r as [|d r]; [reflexivity|].
  cbn [List.map opens_tag]. rewrite unquote_eqb by now right.
  f_equal. induction r as [|x r IH]; [reflexivity|].
  cbn [List.map existsb]. rewrite IH, N.eqb_sym, unquote_eqb by now right.
  now rewrite N.eqb_sym.
Qed.

Lemma map_unquote_tagfree (s : pystr) :
  tagfree (List.map unquote s) = tagfree s.
Proof.
  induction s as [|c r IH]; [reflexivity|].
  cbn [List.map tagfree].
  now rewrite IH, map_unquote_opens_tag, unquote_eqb by now left.
Qed.

Lemma normalize_text_tagfree (text : pystr) :
  tagfree (normalize_text text) = true.
Proof.
  rewrite normalize_text_words. unfold normal_words.
  change (str " ") with (List.map unquote (str " ")).
  rewrite <- join_map, map_unquote_tagfree.
  apply collapse_tagfree, remove_tags_tagfree.
Qed.

Lemma map_unquote_twice (ws : list pystr) :
  List.map (List.map unquote) (List.map (List.map unquote) ws)
  = List.map (List.map unquote) ws.
Proof.
  rewrite map_map. apply map_ext. intros w.
  rewrite map_map. apply map_ext. apply unquote_idempotent.
Qed.

(** C7.  Normalising a normalised text changes nothing. *)
Theorem normalize_text_idempotent (x : pystr) :
  normalize_text (normalize_text x) = normalize_text x.
Proof.
  rewrite (normalize_text_words (normalize_text x)).
  unfold normal_words at 1.
  rewrite (remove_tags_of_tagfree _ (normalize_text_tagfree x)).
  rewrite normalize_text_words.
  rewrite (words_join _ (normal_words_word x)).
  unfold normal_words. now rewrite map_unquote_twice.
Qed.

(** *** Normalisation absorbs straightened quotes and trailing whitespace *)

Lemma remove_tags_map_unquote (inside : bool) (s : pystr) :
  remove_tags inside (List.map unquote s)
  = List.map unquote (remove_tags inside s).
Proof.
  revert inside; induction s as [|c r IH]; intros inside; [reflexivity|].
  cbn [List.map remove_tags].
  rewrite !unquote_eqb by tauto. rewrite map_unquote_opens_tag, !IH.
  destruct inside; [reflexivity|].
  now destruct (N.eqb c 60 && opens_tag r).
Qed.

Lemma normalize_text_unquote (text : pystr) :
  normalize_text (List.map unquote text) = normalize_text text.
Proof.
  rewrite !normalize_text_words. unfold normal_words.
  rewrite remove_tags_map_unquote, words_map by apply unquote_isspace.
  now rewrite map_unquote_twice.
Qed.

Lemma spaces_has_gt (ws : pystr) :
  Forall (fun c => isspace c = true) ws -> has_gt ws = false.
Proof.
  induction 1 as [|c ws Hc _ IH]; [reflexivity|].
  unfold has_gt in *. cbn [existsb]. rewrite IH, orb_false_r.
  destruct (N.eqb_spec 62%N c) as [<-|]; [discriminate|reflexivity].
Qed.

Lemma opens_tag_cons (d : codepoint) (r : pystr) :
  opens_tag (d :: r) = negb (N.eqb d 62) && has_gt r.
Proof. reflexivity. Qed.

Lemma has_gt_app (a b : pystr) : has_gt (a ++ b) = has_gt a || has_gt b.
Proof. apply existsb_app. Qed.

Lemma opens_tag_app_spaces (r ws : pystr) :
  Forall (fun c => isspace c = true) ws -> opens_tag (r ++ ws) = opens_tag r.
Proof.
  intros Hws. pose proof (spaces_has_gt ws Hws) as Hg.
  destruct r as [|d r].
  - cbn [app]. now apply opens_tag_has_gt.
  - cbn [app]. rewrite !opens_tag_cons, has_gt_app, Hg.
    now rewrite orb_false_r.
Qed.

Lemma remove_tags_app_spaces (ws : pystr) :
  Forall (fun c => isspace c = true) ws ->
  forall (u : pystr) (inside : bool),
  exists ws', Forall (fun c => isspace c = true) ws' /\
              remove_tags inside (u ++ ws) = remove_tags inside u ++ ws'.
Proof.
  intros Hws. induction u as [|c u IH]; intros inside.
  - cbn [app remove_tags]. destruct inside.
    + exists []. split; [constructor|].
      induction Hws as [|x ws Hx _ IHws]; [reflexivity|].
      cbn [remove_tags].
      destruct (N.eqb_spec x 62%N) as [->|]; [discriminate|exact IHws].
    + exists ws. split; [assumption|].
      induction Hws as [|x ws Hx _ IHws]; [reflexivity|].
      cbn [remove_tags].
      destruct (N.eqb_spec x 60%N) as [->|]; [discriminate|].
      cbn [andb]. now rewrite IHws.
  - cbn [app remove_tags]. rewrite opens_tag_app_spaces by assumption.
    destruct inside; [apply IH|].
    destruct (N.eqb c 60 && opens_tag u); [apply IH|].
    destruct (IH false) as (ws' & Hws' & E).
    exists ws'. split; [assumption|]. cbn [app]. now rewrite E.
Qed.

Lemma normalize_text_rstrip (text : pystr) :
  normalize_text (rstrip text) = normalize_text text.
Proof.
  destruct (rstrip_decompose text) as (ws & E & Hws).
  rewrite !normalize_text_words. unfold normal_words.
  rewrite E at 2.
  destruct (remove_tags_app_spaces ws Hws (rstrip text) false)
    as (ws' & Hws' & ->).
  now rewrite words_app_spaces.
Qed.

(** The description of a generated record, as the comparator reads it. *)
Definition generated_description (gen : generated) : pystr :=
  match g_description gen with Some d => d | None => [] end.

Lemma description_issues_nil {L : Lower} (src : perk) (gen : generated) :
  description_issues src gen <> [] <->
  normalize_text (description src)
  <> normalize_text (generated_description gen) /\
  (jaccard (normalize_text (description src))
     (normalize_text (generated_description gen)) < 9 # 10)%Q.
Proof.
  unfold description_issues. fold (generated_description gen).
  set (s := normalize_text (description src)).
  set (g := normalize_text (generated_description gen)).
  destruct (eqb s g) eqn:E; cbn [negb].
  - apply eqb_eq in E. split; [congruence | tauto].
  - apply eqb_neq in E.
    destruct (qlt (jaccard s g) (9 # 10)) eqn:Eq.
    + apply qlt_Qlt in Eq. split; [tauto | discriminate].
    + split; [congruence|]. intros [_ Hq]. apply qlt_Qlt in Hq. congruence.
Qed.

Lemma compare_file_mismatch {L : Lower} (source : dict perk)
  (perks_dir : directory) (filename perk file : pystr) (issues : list issue) :
  In (FieldMismatch perk file issues) (compare_file source perks_dir filename) ->
  file = filename /\
  exists generated src,
    dict_get filename perks_dir = Some generated /\
    dict_get (lower (g_name generated)) source = Some src /\
    perk = g_name generated /\
    issues = description_issues src generated /\ issues <> [].
Proof.
  unfold compare_file.
  destruct (negb (endswith json_suffix filename)); [intros []|].
  destruct (dict_get filename perks_dir) as [generated|]; [|intros []].
  destruct (dict_get (lower (g_name generated)) source) as [src|] eqn:Es.
  - destruct (description_issues src generated) as [|i l] eqn:Ei; [intros []|].
    intros [E|[]]. injection E as <- <- <-.
    split; [reflexivity|]. exists generated, src.
    repeat split; auto. discriminate.
  - intros [E|[]]. discriminate.
Qed.

Lemma compare_perks_mismatch {L : Lower} (source : dict perk)
  (perks_dir : directory) (perk file : pystr) (issues : list issue) :
  In (FieldMismatch perk file issues) (compare_perks source perks_dir) <->
  In file (keys perks_dir) /\
  In (FieldMismatch perk file issues) (compare_file source perks_dir file).
Proof.
  unfold compare_perks. rewrite in_app_iff, in_flat_map. split.
  - intros [(filename & Hf & Hin)|Hm].
    + destruct (compare_file_mismatch _ _ _ _ _ _ Hin) as [-> _].
      rewrite sorted_In in Hf. split; assumption.
    + unfold missing in Hm. apply in_flat_map in Hm as (e & _ & He).
      destruct (negb _); [destruct He as [He|[]]; discriminate | destruct He].
  - intros [Hf Hin]. left. exists file. now rewrite sorted_In.
Qed.

Lemma normalize_text_absorbs (a b : pystr) :
  rstrip (List.map unquote a) = rstrip (List.map unquote b) ->
  normalize_text a = normalize_text b.
Proof.
  intros E.
  rewrite <- (normalize_text_unquote a), <- (normalize_text_unquote b).
  rewrite <- (normalize_text_rstrip (List.map unquote a)).
  rewrite <- (normalize_text_rstrip (List.map unquote b)).
  now rewrite E.
Qed.

(** The word sets of the similarity are sets, and their intersection and
    union are the ones of sets, so that the two lengths are cardinals. *)
Lemma jaccard_sets {L : Lower} (src_desc gen_desc : pystr) :
  NoDup (word_set src_desc) /\ NoDup (word_set gen_desc) /\
  NoDup (set_inter (word_set src_desc) (word_set gen_desc)) /\
  NoDup (set_union (word_set src_desc) (word_set gen_desc)) /\
  (forall w, In w (word_set src_desc) <-> In w (words (lower src_desc))) /\
  (forall w, In w (set_inter (word_set src_desc) (word_set gen_desc)) <->
             In w (word_set src_desc) /\ In w (word_set gen_desc)) /\
  (forall w, In w (set_union (word_set src_desc) (word_set gen_desc)) <->
             In w (word_set src_desc) \/ In w (word_set gen_desc)).
Proof.
  unfold word_set.
  split; [apply set_of_NoDup|]. split; [apply set_of_NoDup|].
  split; [apply set_inter_NoDup, set_of_NoDup|].
  split; [apply set_union_NoDup; apply set_of_NoDup|].
  split; [intros w; apply set_of_In|].
  split; intros w; [apply set_inter_In | apply set_union_In].
Qed.

(** All four curly quotes, straightened: what differing only by curly
    quotes says, read on its own. *)
Definition straighten (c : codepoint) : codepoint :=
  if N.eqb c 8216 || N.eqb c 8217 then 39%N
  else if N.eqb c 8220 || N.eqb c 8221 then 34%N
  else c.

Definition same_but_quotes_and_trailing_space (a b : pystr) : Prop :=
  rstrip (List.map straighten a) = rstrip (List.map straighten b).

Definition quoted_source : dict perk :=
  [(str "quip",
    {| name := str "Quip"; prerequisite := [];
       description := [8216; 97; 8217]%N |})].

Definition quoted_dir : directory :=
  [(str "quip.json",
    {| g_name := str "Quip"; g_description := Some [39; 97; 39]%N |})].

(** The left single curly quote is not among the replacements of the
    normaliser: a description between single curly quotes and the same
    description between apostrophes are reported as a mismatch. *)
Lemma left_single_quote_reported :
  same_but_quotes_and_trailing_space [8216; 97; 8217]%N [39; 97; 39]%N /\
  compare_perks (L := ascii_lower) quoted_source quoted_dir =
  [FieldMismatch (str "Quip") (str "quip.json")
     [DescriptionMismatch (0 # 2) [8216; 97; 39]%N [39; 97; 39]%N]].
Proof. split; vm_compute; reflexivity. Qed.

(** C2.  For a generated file whose perk is in the source, the comparator
    reports a description mismatch exactly when the two normalised
    descriptions differ and the Jaccard index of their lower-cased word sets
    (0 when one of the sets is empty) is below 9/10.  Two descriptions that
    are equal once the right single quote and the two double curly quotes
    are straightened and trailing whitespace is dropped have the same
    normalised text, so nothing is reported for the file. *)
Theorem description_mismatch_reported {L : Lower} (source : dict perk)
  (perks_dir : directory) (filename : pystr) (generated : generated)
  (src : perk) :
  endswith json_suffix filename = true ->
  dict_get filename perks_dir = Some generated ->
  dict_get (lower (g_name generated)) source = Some src ->
  ((exists issues,
       In (FieldMismatch (g_name generated) filename issues)
          (compare_perks source perks_dir)) <->
   normalize_text (description src)
   <> normalize_text (generated_description generated) /\
   (jaccard (normalize_text (description src))
      (normalize_text (generated_description generated)) < 9 # 10)%Q) /\
  (rstrip (List.map unquote (description src))
   = rstrip (List.map unquote (generated_description generated)) ->
   compare_file source perks_dir filename = [] /\
   forall perk issues,
     ~ In (FieldMismatch perk filename issues) (compare_perks source perks_dir)).
Proof.
  intros Hj Hf Hs.
  assert (Ecf : compare_file source perks_dir filename =
                match description_issues src generated with
                | [] => []
                | _ :: _ =>
                    [FieldMismatch (g_name generated) filename
                       (description_issues src generated)]
                end).
  { unfold compare_file. rewrite Hj, Hf, Hs. cbn [negb].
    now destruct (description_issues src generated). }
  split.
  - rewrite <- description_issues_nil. split.
    + intros [issues Hin]. apply compare_perks_mismatch in Hin as [_ Hin].
      destruct (compare_file_mismatch _ _ _ _ _ _ Hin)
        as (_ & g & s & Hg & Hsrc & _ & -> & Hne).
      rewrite Hf in Hg. injection Hg as <-.
      rewrite Hs in Hsrc. now injection Hsrc as <-.
    + intros Hne. exists (description_issues src generated).
      apply compare_perks_mismatch. split.
      * apply dict_get_In in Hf. unfold keys.
        change filename with (fst (filename, generated)). now apply in_map.
      * rewrite Ecf. destruct (description_issues src generated);
          [congruence | now left].
  - intros E. apply normalize_text_absorbs in E.
    assert (Ed : description_issues src generated = []).
    { unfold description_issues. fold (generated_description generated).
      now rewrite E, eqb_refl. }
    rewrite Ed in Ecf. split; [assumption|].
    intros perk issues Hin. apply compare_perks_mismatch in Hin as [_ Hin].
    now rewrite Ecf in Hin.
Qed.

Definition curly_source : dict perk :=
  [(str "tough",
    {| name := str "Tough"; prerequisite := [];
       description :=
         str "It" ++ [8217%N] ++ str "s " ++ [8220%N] ++ str "tough"
         ++ [8221%N] |})].

Definition curly_dir : directory :=
  [(str "tough.json",
    {| g_name := str "Tough";
       g_description :=
         Some (str "It's " ++ [34%N] ++ str "tough" ++ [34%N] ++ str "  ") |})].

Lemma description_mismatch_reported_witness :
  compare_file (L := ascii_lower) curly_source curly_dir (str "tough.json") = []
  /\ forall perk issues,
       ~ In (FieldMismatch perk (str "tough.json") issues)
            (compare_perks (L := ascii_lower) curly_source curly_dir).
Proof.
  refine (proj2 (@description_mismatch_reported ascii_lower curly_source
                   curly_dir (str "tough.json")
                   {| g_name := str "Tough";
                      g_description :=
                        Some (str "It's " ++ [34%N] ++ str "tough" ++ [34%N]
                              ++ str "  ") |}
                   {| name := str "Tough"; prerequisite := [];
                      description :=
                        str "It" ++ [8217%N] ++ str "s " ++ [8220%N]
                        ++ str "tough" ++ [8221%N] |}
                   _ _ _) _); vm_compute; reflexivity.
Defined.

(** *** The order of the report *)

(** The [file] entry of a discrepancy. *)
Definition file_of (d : discrepancy) : pystr :=
  match d with
  | NotInSource _ file => file
  | FieldMismatch _ file _ => file
  | Missing _ => str "MISSING"
  end.

Definition is_missing (d : discrepancy) : bool :=
  match d with Missing _ => true | _ => false end.

Lemma compare_file_files {L : Lower} (source : dict perk)
  (perks_dir : directory) (filename : pystr) :
  (compare_file source perks_dir filename = [] \/
   exists d, compare_file source perks_dir filename = [d] /\
             file_of d = filename /\ is_missing d = false).
Proof.
  unfold compare_file.
  destruct (negb (endswith json_suffix filename)); [now left|].
  destruct (dict_get filename perks_dir) as [generated|]; [|now left].
  destruct (dict_get (lower (g_name generated)) source) as [src|].
  - destruct (description_issues src generated); [now left|].
    right. eexists. repeat split.
  - right. eexists. repeat split.
Qed.

Lemma per_file_sorted {L : Lower} (source : dict perk) (perks_dir : directory)
  (files : list pystr) :
  StronglySorted le files ->
  StronglySorted le
    (List.map file_of (flat_map (compare_file source perks_dir) files)) /\
  Forall (fun d => In (file_of d) files /\ is_missing d = false)
    (flat_map (compare_file source perks_dir) files).
Proof.
  induction 1 as [|f files Hs [IH1 IH2] Hle]; [split; constructor|].
  cbn [flat_map].
  assert (IH2' : Forall (fun d => In (file_of d) (f :: files)
                                  /\ is_missing d = false)
                   (flat_map (compare_file source perks_dir) files)).
  { eapply Forall_impl; [|exact IH2]. intros d [Hd Hm]. split; [now right|auto]. }
  destruct (compare_file_files source perks_dir f) as [->|(d & -> & Hd & Hm)].
  - now split.
  - cbn [app List.map]. split.
    + constructor; [assumption|]. rewrite Hd.
      apply Forall_forall. intros x Hx.
      apply in_map_iff in Hx as (d' & <- & Hd').
      rewrite Forall_forall in IH2, Hle.
      apply Hle. now apply IH2.
    + constructor; [|assumption]. split; [left; now rewrite Hd | assumption].
Qed.

Lemma generated_names_Permutation {L : Lower} (dir1 dir2 : directory)
  (key : pystr) :
  Permutation dir1 dir2 ->
  mem key (generated_names dir1) = mem key (generated_names dir2).
Proof.
  intros Hp. unfold generated_names. rewrite !mem_set_of.
  apply mem_Permutation. now apply Permutation_flat_map.
Qed.

Lemma missing_filter {L : Lower} (source : dict perk) (perks_dir : directory) :
  missing source perks_dir =
  List.map (fun entry => Missing (name (snd entry)))
    (filter (fun entry => negb (mem (fst entry) (generated_names perks_dir)))
       source).
Proof.
  unfold missing. induction source as [|e s IH]; [reflexivity|].
  cbn [flat_map filter]. rewrite IH.
  now destruct (negb (mem (fst e) (generated_names perks_dir))).
Qed.

(** C9.  The report does not depend on the order in which the directory is
    listed: two listings of the same files give the same list of
    discrepancies.  The list is made of the discrepancies of the files, in
    the order of the sorted file names, followed by the missing entries, in
    the order of the source dictionary, which is the order in which the
    parser first met the names. *)
Theorem comparison_deterministic {L : Lower} (source : dict perk) :
  (forall dir1 dir2 : directory,
      NoDup (keys dir1) -> Permutation dir1 dir2 ->
      compare_perks source dir1 = compare_perks source dir2) /\
  (forall perks_dir : directory,
      exists per_file,
        compare_perks source perks_dir = per_file ++ missing source perks_dir /\
        StronglySorted le (List.map file_of per_file) /\
        Forall (fun d => In (file_of d) (keys perks_dir) /\ is_missing d = false)
          per_file /\
        missing source perks_dir =
        List.map (fun entry => Missing (name (snd entry)))
          (filter
             (fun entry => negb (mem (fst entry) (generated_names perks_dir)))
             source)) /\
  (forall perks block,
      keys (scan_block perks block) = keys perks \/
      exists key, ~ In key (keys perks) /\
                  keys (scan_block perks block) = keys perks ++ [key]).
Proof.
  split; [|split].
  - intros dir1 dir2 Hnd Hp. unfold compare_perks. f_equal.
    + rewrite (sorted_Permutation (keys dir1) (keys dir2))
        by (unfold keys; now apply Permutation_map).
      apply flat_map_ext. intros filename. unfold compare_file.
      now rewrite (dict_get_Permutation filename dir1 dir2 Hnd Hp).
    + unfold missing. apply flat_map_ext. intros entry.
      now rewrite (generated_names_Permutation dir1 dir2 (fst entry) Hp).
  - intros perks_dir.
    exists (flat_map (compare_file source perks_dir) (sorted (keys perks_dir))).
    destruct (per_file_sorted source perks_dir (sorted (keys perks_dir))
                (sorted_sorted _)) as [H1 H2].
    split; [reflexivity|]. split; [assumption|]. split.
    + eapply Forall_impl; [|exact H2]. intros d [Hd Hm].
      rewrite sorted_In in Hd. now split.
    + apply missing_filter.
  - intros perks block. unfold scan_block.
    destruct (scan_lines (split newline (strip block))) as [p|]; [|now left].
    rewrite dict_set_keys.
    destruct (mem (lower (name p)) (keys perks)) eqn:E; [now left|].
    right. exists (lower (name p)). split; [now apply mem_false | reflexivity].
Qed.

Definition listing_a : directory :=
  [(str "tough.json", {| g_name := str "Tough"; g_description := Some (str "Hard.") |});
   (str "agile.json", {| g_name := str "Agile"; g_description := None |});
   (str "notes.txt", {| g_name := []; g_description := None |})].

Definition listing_b : directory :=
  [(str "notes.txt", {| g_name := []; g_description := None |});
   (str "agile.json", {| g_name := str "Agile"; g_description := None |});
   (str "tough.json", {| g_name := str "Tough"; g_description := Some (str "Hard.") |})].

Definition listing_source : dict perk :=
  [(str "wise", {| name := str "Wise"; prerequisite := []; description := str "Knows." |});
   (str "tough", {| name := str "Tough"; prerequisite := []; description := str "You gain 2 health." |});
   (str "bold", {| name := str "Bold"; prerequisite := []; description := str "Dares." |})].

Lemma comparison_deterministic_witness :
  compare_perks (L := ascii_lower) listing_source listing_a
  = compare_perks (L := ascii_lower) listing_source listing_b.
Proof.
  apply (proj1 (comparison_deterministic (L := ascii_lower) listing_source)).
  - unfold listing_a. cbn [keys List.map fst].
    repeat (constructor;
            [cbn [In]; intros H;
             repeat (destruct H as [H|H]; [discriminate H|]); exact H|]).
    constructor.
  - unfold listing_a, listing_b.
    eapply perm_trans; [apply perm_swap|].
    eapply perm_trans; [apply perm_skip, perm_swap|].
    eapply perm_trans; [apply perm_swap|].
    apply Permutation_refl.
Defined.

(** *** Unmatched entries *)

Lemma perk_names_mem {L : Lower} (perks_dir : directory) (key : pystr) :
  mem key (generated_names perks_dir) = false <->
  forall filename generated,
    In (filename, generated) perks_dir -> endswith json_suffix filename = true ->
    lower (g_name generated) <> key.
Proof.
  unfold generated_names. rewrite mem_set_of, mem_false, in_flat_map. split.
  - intros Hn filename generated Hin Hj E. apply Hn.
    exists (filename, generated). split; [assumption|].
    cbn [fst snd]. rewrite Hj. now left.
  - intros H ([filename generated] & Hin & Hk). cbn [fst snd] in Hk.
    destruct (endswith json_suffix filename) eqn:Hj; [|destruct Hk].
    destruct Hk as [Hk|[]]. exact (H filename generated Hin Hj Hk).
Qed.

(** X15.  The two kinds of unmatched entries.  A file is reported as not
    in the source exactly when it is a [.json] file of the directory whose
    lower-cased name is no key of the source; then none of its fields is
    compared.  A source record is reported as missing exactly when no
    [.json] file of the directory has its key as lower-cased name. *)
Theorem unmatched_perks {L : Lower} (source : dict perk) (perks_dir : directory) :
  (forall item file,
      In (NotInSource item file) (compare_perks source perks_dir) <->
      endswith json_suffix file = true /\
      exists generated,
        dict_get file perks_dir = Some generated /\ g_name generated = item /\
        dict_get (lower item) source = None) /\
  (forall item,
      In (Missing item) (compare_perks source perks_dir) <->
      exists key record,
        In (key, record) source /\ name record = item /\
        forall filename generated,
          In (filename, generated) perks_dir ->
          endswith json_suffix filename = true ->
          lower (g_name generated) <> key).
Proof.
  split.
  - intros item file. unfold compare_perks. rewrite in_app_iff, in_flat_map. split.
    + intros [(filename & Hf & Hin)|Hm].
      * unfold compare_file in Hin.
        destruct (endswith json_suffix filename) eqn:Hj; [|destruct Hin].
        cbn [negb] in Hin.
        destruct (dict_get filename perks_dir) as [generated|] eqn:Hg;
          [|destruct Hin].
        destruct (dict_get (lower (g_name generated)) source) as [src|] eqn:Hs.
        -- destruct (description_issues src generated) in Hin;
             [destruct Hin | destruct Hin as [Hin|[]]; discriminate].
        -- destruct Hin as [Hin|[]]. injection Hin as <- <-.
           split; [assumption|]. now exists generated.
      * unfold missing in Hm. apply in_flat_map in Hm as (e & _ & He).
        destruct (negb _); [destruct He as [He|[]]; discriminate | destruct He].
    + intros (Hj & generated & Hg & <- & Hs). left. exists file. split.
      * rewrite sorted_In. apply dict_get_In in Hg. unfold keys.
        change file with (fst (file, generated)). now apply in_map.
      * unfold compare_file. rewrite Hj, Hg, Hs. now left.
  - intros item. unfold compare_perks. rewrite in_app_iff. split.
    + intros [Hin|Hm].
      * apply in_flat_map in Hin as (filename & _ & Hin).
        unfold compare_file in Hin.
        destruct (negb (endswith json_suffix filename)); [destruct Hin|].
        destruct (dict_get filename perks_dir) as [generated|]; [|destruct Hin].
        destruct (dict_get (lower (g_name generated)) source) as [src|].
        -- destruct (description_issues src generated) in Hin;
             [destruct Hin | destruct Hin as [Hin|[]]; discriminate].
        -- destruct Hin as [Hin|[]]. discriminate.
      * unfold missing in Hm. apply in_flat_map in Hm as ([key record] & Hs & He).
        cbn [fst snd] in He.
        destruct (mem key (generated_names perks_dir)) eqn:Em;
          [destruct He|].
        destruct He as [He|[]]. injection He as <-.
        exists key, record. split; [assumption|]. split; [reflexivity|].
        now apply perk_names_mem.
    + intros (key & record & Hs & <- & Hn). right.
      unfold missing. apply in_flat_map. exists (key, record).
      split; [assumption|]. cbn [fst snd].
      rewrite (proj2 (perk_names_mem perks_dir key) Hn). now left.
Qed.

(** *** What the normaliser removes and what it leaves *)

Lemma remove_tags_plain (a rest : pystr) :
  ~ In 60%N a -> remove_tags false (a ++ rest) = a ++ remove_tags false rest.
Proof.
  induction a as [|c a IH]; intros Hn; [reflexivity|].
  cbn [app remove_tags].
  destruct (N.eqb_spec c 60%N) as [->|_]; [exfalso; apply Hn; now left|].
  cbn [andb]. rewrite IH; [reflexivity|].
  intros Hin. apply Hn. now right.
Qed.

Lemma remove_tags_inside (m rest : pystr) :
  ~ In 62%N m ->
  remove_tags true (m ++ 62%N :: rest) = remove_tags false rest.
Proof.
  induction m as [|c m IH]; intros Hn.
  - reflexivity.
  - cbn [app remove_tags].
    destruct (N.eqb_spec c 62%N) as [->|_]; [exfalso; apply Hn; now left|].
    cbn [negb]. apply IH. intros Hin. apply Hn. now right.
Qed.

Lemma remove_tags_span (a m b : pystr) :
  ~ In 60%N a -> m <> [] -> ~ In 62%N m ->
  remove_tags false (a ++ 60%N :: m ++ 62%N :: b) = a ++ remove_tags false b.
Proof.
  intros Ha Hm Hn. rewrite remove_tags_plain by assumption. f_equal.
  cbn [remove_tags]. rewrite N.eqb_refl. cbn [andb].
  assert (Ho : opens_tag (m ++ 62%N :: b) = true).
  { destruct m as [|d m]; [congruence|].
    cbn [app]. rewrite opens_tag_cons.
    destruct (N.eqb_spec d 62%N) as [->|_]; [exfalso; apply Hn; now left|].
    cbn [negb andb]. rewrite has_gt_app. unfold has_gt at 2. cbn [existsb].
    apply orb_true_r. }
  rewrite Ho. now apply remove_tags_inside.
Qed.

(** X8.  What the tag pattern deletes.  A span that opens with the first
    [<] of the text (no [<] comes before it), holds at least one code point
    and no [>], and closes with [>] vanishes from the normalised text,
    whatever it holds: markup, but also prose between a less-than and a
    greater-than sign. *)
Theorem normalize_text_drops_span (a m b : pystr) :
  ~ In 60%N a -> m <> [] -> ~ In 62%N m ->
  normalize_text (a ++ str "<" ++ m ++ str ">" ++ b) = normalize_text (a ++ b).
Proof.
  intros Ha Hm Hn. rewrite !normalize_text_words. unfold normal_words.
  change (a ++ str "<" ++ m ++ str ">" ++ b)
    with (a ++ 60%N :: m ++ 62%N :: b).
  rewrite remove_tags_span by assumption.
  now rewrite remove_tags_plain.
Qed.

Lemma normalize_text_drops_span_witness :
  normalize_text (str "Deal " ++ str "<" ++ str "strong" ++ str ">" ++ str "2 damage")
  = normalize_text (str "Deal " ++ str "2 damage") /\
  normalize_text (str "if a " ++ str "<" ++ str " b and c " ++ str ">" ++ str " d")
  = normalize_text (str "if a " ++ str " d").
Proof.
  split.
  - apply (normalize_text_drops_span (str "Deal ") (str "strong") (str "2 damage"));
      [vm_compute; intuition discriminate | discriminate
       | vm_compute; intuition discriminate].
  - apply (normalize_text_drops_span (str "if a ") (str " b and c ") (str " d"));
      [vm_compute; intuition discriminate | discriminate
       | vm_compute; intuition discriminate].
Defined.

(** X9.  The shape of a normalised text.  It has no whitespace at its ends,
    its words are one space apart, it holds none of the three replaced
    quotes, and the tag pattern has no match left in it. *)
Theorem normalized_shape (text : pystr) :
  strip (normalize_text text) = normalize_text text /\
  join (str " ") (words (normalize_text text)) = normalize_text text /\
  Forall (fun c => c <> 8217 /\ c <> 8220 /\ c <> 8221)%N (normalize_text text) /\
  remove_tags false (normalize_text text) = normalize_text text.
Proof.
  split; [|split; [|split]].
  - rewrite normalize_text_words. apply strip_join, normal_words_word.
  - rewrite normalize_text_words.
    now rewrite (words_join _ (normal_words_word text)).
  - rewrite normalize_text_words. unfold normal_words.
    change (str " ") with (List.map unquote (str " ")).
    rewrite <- join_map. apply Forall_forall. intros c Hc.
    apply in_map_iff in Hc as (x & <- & _).
    destruct (unquote_cases x)
      as [[-> ->]|[[-> ->]|[[-> ->]|(H1 & H2 & H3 & ->)]]];
      repeat split; try discriminate; assumption.
  - apply remove_tags_of_tagfree, normalize_text_tagfree.
Qed.

(** *** The similarity test *)

(** X10.  The words only.  When the two normalised descriptions have the same
    set of lower-cased words, and that set is not empty, no description
    mismatch is reported, however the words are ordered or repeated. *)
Theorem same_words_pass {L : Lower} (src : perk) (gen : generated) :
  word_set (normalize_text (description src)) <> [] ->
  (forall w,
      In w (word_set (normalize_text (description src))) <->
      In w (word_set (normalize_text (generated_description gen)))) ->
  description_issues src gen = [].
Proof.
  intros Hne Hsame. unfold description_issues.
  fold (generated_description gen).
  set (s := normalize_text (description src)) in *.
  set (g := normalize_text (generated_description gen)) in *.
  destruct (eqb s g); cbn [negb]; [reflexivity|].
  unfold jaccard. rewrite (set_inter_same _ _ Hsame), (set_union_same _ _ Hsame).
  destruct (word_set s) as [|w ws] eqn:Es; [congruence|].
  destruct (word_set g) as [|w' ws'] eqn:Eg.
  { exfalso. apply (proj1 (Hsame w)). now left. }
  assert (E : qlt (Z.of_nat (List.length (w :: ws))
                   # Pos.of_nat (List.length (w :: ws))) (9 # 10) = false).
  { unfold qlt. cbn [Qnum Qden List.length].
    apply Z.ltb_ge.
    rewrite <- (positive_nat_Z (Pos.of_nat (S (List.length ws)))).
    rewrite Nat2Pos.id by discriminate. lia. }
  now rewrite E.
Qed.

Lemma same_words_pass_witness :
  description_issues (L := ascii_lower)
    {| name := str "Bark"; prerequisite := [];
       description := str "big red dog" |}
    {| g_name := str "Bark"; g_description := Some (str "Dog red BIG big") |}
  = [].
Proof.
  apply (same_words_pass (L := ascii_lower)).
  - vm_compute. discriminate.
  - intros w. vm_compute. intuition.
Defined.

(** *** Files that are not records, repeated names, the section marker *)

(** X11.  Only [.json] files count.  A file of the directory whose name does
    not end in [.json] changes nothing in the report, wherever it is
    listed and whatever it holds. *)
Theorem other_files_ignored {L : Lower} (source : dict perk)
  (dir1 dir2 : directory) (filename : pystr) (content : generated) :
  endswith json_suffix filename = false ->
  compare_perks source (dir1 ++ (filename, content) :: dir2)
  = compare_perks source (dir1 ++ dir2).
Proof.
  intros Hj. unfold compare_perks. f_equal.
  - assert (Hf : forall d, compare_file source d filename = []).
    { intros d. unfold compare_file. now rewrite Hj. }
    assert (Ek : sorted (keys (dir1 ++ (filename, content) :: dir2))
                 = insert_sorted filename (sorted (keys (dir1 ++ dir2)))).
    { change (insert_sorted filename (sorted (keys (dir1 ++ dir2))))
        with (sorted (filename :: keys (dir1 ++ dir2))).
      apply sorted_Permutation. unfold keys. rewrite !map_app. cbn [List.map fst].
      apply Permutation_sym, Permutation_middle. }
    rewrite Ek, insert_sorted_flat_map by apply Hf.
    apply flat_map_ext. intros x. unfold compare_file.
    destruct (endswith json_suffix x) eqn:Hx; [|reflexivity]. cbn [negb].
    rewrite dict_get_middle; [reflexivity|]. intros ->. congruence.
  - unfold missing. apply flat_map_ext. intros entry.
    unfold generated_names. rewrite !flat_map_app. cbn [flat_map fst].
    now rewrite Hj.
Qed.

Lemma other_files_ignored_witness :
  compare_perks (L := ascii_lower) listing_source
    ([(str "tough.json",
       {| g_name := str "Tough"; g_description := Some (str "Hard.") |})]
     ++ (str "notes.txt", {| g_name := str "Wise"; g_description := None |})
     :: [(str "agile.json", {| g_name := str "Agile"; g_description := None |})])
  = compare_perks (L := ascii_lower) listing_source
      ([(str "tough.json",
         {| g_name := str "Tough"; g_description := Some (str "Hard.") |})]
       ++ [(str "agile.json", {| g_name := str "Agile"; g_description := None |})]).
Proof.
  apply (other_files_ignored (L := ascii_lower)). vm_compute. reflexivity.
Defined.

(** The blocks that the loop of [parse_source_perks] goes through. *)
Definition perk_blocks (text : pystr) : list pystr :=
  tl (split (newline ++ str "### ")
        (if contains section_marker text
         then nth 1 (split section_marker text) []
         else text)).

Definition block_key {L : Lower} (block : pystr) : option pystr :=
  option_map (fun p => lower (name p)) (scan_lines (split newline (strip block))).

Lemma fold_scan_block_keeps {L : Lower} (blocks : list pystr)
  (perks : dict perk) (key : pystr) (p : perk) :
  dict_get key perks = Some p ->
  Forall (fun block => block_key block <> Some key) blocks ->
  dict_get key (fold_left scan_block blocks perks) = Some p.
Proof.
  intros Hg Hb. revert perks Hg.
  induction Hb as [|block blocks Hk _ IH]; intros perks Hg; [exact Hg|].
  cbn [fold_left]. apply IH. unfold scan_block. unfold block_key in Hk.
  destruct (scan_lines (split newline (strip block))) as [q|]; [|exact Hg].
  rewrite dict_get_set_other; [exact Hg|].
  intros ->. now apply Hk.
Qed.

(** X12.  A repeated name.  When several blocks give a record under the same
    key, the mapping holds the record of the last of them: a block that
    gives a record, and is followed only by blocks with other keys or no
    record, is the one found under its key, whatever came before. *)
Theorem last_block_wins {L : Lower} (text : pystr)
  (before : list pystr) (block : pystr) (after : list pystr) (p : perk) :
  perk_blocks text = before ++ block :: after ->
  scan_lines (split newline (strip block)) = Some p ->
  Forall (fun later => block_key later <> Some (lower (name p))) after ->
  dict_get (lower (name p)) (parse_source_perks text) = Some p.
Proof.
  intros Hb Hs Ha. unfold parse_source_perks. fold (perk_blocks text).
  rewrite Hb, fold_left_app. cbn [fold_left].
  apply fold_scan_block_keeps; [|assumption].
  unfold scan_block at 1. rewrite Hs. apply dict_get_set_same.
Qed.

Definition twice_text : pystr :=
  str "Perks" ++ newline ++
  str "### Tough" ++ newline ++ str "You gain 2 health." ++ newline ++
  str "### Agile" ++ newline ++ str "You move fast." ++ newline ++
  str "### TOUGH" ++ newline ++ str "You gain 3 health.".

Lemma last_block_wins_witness :
  dict_get (lower (Lower := ascii_lower) (str "TOUGH"))
    (parse_source_perks (L := ascii_lower) twice_text)
  = Some {| name := str "TOUGH"; prerequisite := [];
            description := str "You gain 3 health." |}.
Proof.
  apply (last_block_wins (L := ascii_lower) twice_text
           [str "Tough" ++ newline ++ str "You gain 2 health.";
            str "Agile" ++ newline ++ str "You move fast."]
           (str "TOUGH" ++ newline ++ str "You gain 3 health.") []
           {| name := str "TOUGH"; prerequisite := [];
              description := str "You gain 3 health." |}).
  - vm_compute. reflexivity.
  - vm_compute. reflexivity.
  - constructor.
Defined.

(** X13.  The section marker.  When the text holds the marker of the full
    descriptions once, and no earlier place of the text starts the marker,
    only what follows the marker is parsed: perk headers before it give no
    record. *)
Theorem only_the_section_is_parsed {L : Lower} (pre post : pystr) :
  starts_nowhere section_marker pre (section_marker ++ post) = true ->
  contains section_marker post = false ->
  parse_source_perks (pre ++ section_marker ++ post) = parse_source_perks post.
Proof.
  intros Hpre Hpost. unfold parse_source_perks.
  rewrite contains_app, Hpost.
  rewrite split_first by (assumption || discriminate).
  now rewrite (split_no_match _ _ Hpost).
Qed.

Lemma only_the_section_is_parsed_witness :
  parse_source_perks (L := ascii_lower)
    ((str "# Perks" ++ newline ++ str "### Summary" ++ newline ++
      str "A table of perks." ++ newline)
     ++ section_marker
     ++ (newline ++ str "### Tough" ++ newline ++ str "You gain 2 health."))
  = parse_source_perks (L := ascii_lower)
      (newline ++ str "### Tough" ++ newline ++ str "You gain 2 health.").
Proof.
  apply (only_the_section_is_parsed (L := ascii_lower));
    vm_compute; reflexivity.
Defined.

(** *** The prerequisite of a record *)

Lemma scan_line_prereq (body : list pystr) (st : pystr * list pystr) :
  Forall (fun line => startswith prerequisite_marker line = false) body ->
  fst (fold_left scan_line body st) = fst st.
Proof.
  intros Hb. revert st. induction Hb as [|line body Hl _ IH]; intros st.
  - reflexivity.
  - cbn [fold_left]. rewrite IH. destruct st as [prereq lines].
    unfold scan_line. rewrite Hl.
    now destruct (truthy (strip line) && negb (startswith (str "---") line)).
Qed.

Lemma scan_lines_prerequisite (header : pystr) (body : list pystr) (p : perk) :
  scan_lines (header :: body) = Some p ->
  prerequisite p = fst (fold_left scan_line body ([], [])).
Proof.
  unfold scan_lines.
  destruct (mem (strip header) category_headers); [discriminate|].
  destruct (fold_left scan_line body ([], [])) as [prereq dl].
  destruct (truthy (strip header) && truthy _); [|discriminate].
  now intros [= <-].
Qed.

(** X14.  The prerequisite of a perk.  A record from a block without a
    prerequisite line has the empty prerequisite; otherwise it has the text
    of the last prerequisite line of the block, with every occurrence of
    the marker taken out, trimmed. *)
Theorem record_prerequisite (header : pystr) (p : perk) :
  (forall body,
      Forall (fun line => startswith prerequisite_marker line = false) body ->
      scan_lines (header :: body) = Some p ->
      prerequisite p = []) /\
  (forall body line rest,
      startswith prerequisite_marker line = true ->
      Forall (fun later => startswith prerequisite_marker later = false) rest ->
      scan_lines (header :: body ++ line :: rest) = Some p ->
      prerequisite p = strip (replace prerequisite_marker [] line)).
Proof.
  split.
  - intros body Hb Hs. rewrite (scan_lines_prerequisite _ _ _ Hs).
    now rewrite scan_line_prereq.
  - intros body line rest Hl Hr Hs. rewrite (scan_lines_prerequisite _ _ _ Hs).
    rewrite fold_left_app. cbn [fold_left].
    rewrite scan_line_prereq by assumption.
    destruct (fold_left scan_line body ([], [])) as [prereq dl].
    unfold scan_line. now rewrite Hl.
Qed.

Lemma record_prerequisite_witness :
  prerequisite
    {| name := str "Tough"; prerequisite := str "Might 5";
       description := str "You gain 2 health." |}
  = strip (replace prerequisite_marker [] (str "**Prerequisite:** Might 5 ")).
Proof.
  apply (proj2 (record_prerequisite (str "Tough")
                  {| name := str "Tough"; prerequisite := str "Might 5";
                     description := str "You gain 2 health." |})
           [str "**Prerequisite:** Might 4"]
           (str "**Prerequisite:** Might 5 ")
           [str "You gain 2 health."]).
  - reflexivity.
  - repeat constructor.
  - vm_compute. reflexivity.
Defined.

End PerksSpec.

(** ** Properties of [scripts/validate_spells.py] *)

Module SpellsSpec.
Import Py PyFacts Spells.

(** *** The lines of a spell block *)

(** A raw line is a header when its text without trailing whitespace
    starts with the header marker. *)
Definition is_header (raw : pystr) : bool := startswith header_marker (rstrip raw).

Definition is_crit (line : pystr) : bool := startswith crit_marker line.
Definition is_damage (line : pystr) : bool := startswith damage_marker line.

(** Non-empty and not a separator. *)
Definition accumulates (line : pystr) : bool :=
  truthy line && negb (startswith separator_marker line).

(** The text on a marker line, as a list of at most one line. *)
Definition crit_text (line : pystr) : list pystr :=
  if truthy (strip (replace crit_marker [] line))
  then [strip (replace crit_marker [] line)] else [].

(** The lines before the first marker line, and the lines from it on. *)
Fixpoint before_crit (lines : list pystr) : list pystr :=
  match lines with
  | [] => []
  | line :: rest => if is_crit line then [] else line :: before_crit rest
  end.

Fixpoint from_crit (lines : list pystr) : list pystr :=
  match lines with
  | [] => []
  | line :: rest => if is_crit line then lines else from_crit rest
  end.

(** The two buffers of a block as the claim words them: every non-empty
    non-separator line before the first marker goes to the effect, and
    after it to the crit. *)
Definition claimed_effect_lines (lines : list pystr) : list pystr :=
  filter accumulates (before_crit lines).

Definition claimed_crit_lines (lines : list pystr) : list pystr :=
  flat_map
    (fun line =>
       if is_crit line then crit_text line
       else if accumulates line then [line] else [])
    (from_crit lines).

(** The two buffers of a block as the loop fills them: the damage lines
    are taken by their own branch and reach neither buffer. *)
Definition block_effect_lines (lines : list pystr) : list pystr :=
  filter (fun line => negb (is_damage line) && accumulates line)
    (before_crit lines).

Definition crit_part (line : pystr) : list pystr :=
  if is_damage line then []
  else if is_crit line then crit_text line
  else if accumulates line then [line] else [].

Definition block_crit_lines (lines : list pystr) : list pystr :=
  flat_map crit_part (from_crit lines).

Lemma crit_not_damage (line : pystr) :
  is_crit line = true -> is_damage line = false.
Proof.
  unfold is_crit, is_damage.
  change crit_marker with ([42; 42; 67]%N ++ str "rit:**").
  change damage_marker with ([42; 42; 68]%N ++ str "amage Base:**").
  destruct line as [|a [|b [|c t]]]; cbn [app startswith];
    rewrite ?andb_false_r; try discriminate.
  destruct (N.eqb_spec 67 c) as [<-|]; [|now rewrite !andb_false_r].
  intros _. cbn [N.eqb Pos.eqb andb]. now rewrite !andb_false_r.
Qed.

Lemma step_body {L : Lower} (st : state) (raw : pystr) :
  is_header raw = false -> has_spell st = true ->
  let st' := step st raw in
  spells st' = spells st /\ current_spell st' = current_spell st /\
  has_spell st' = true /\
  in_crit st' = in_crit st || (negb (is_damage (rstrip raw)) && is_crit (rstrip raw)) /\
  effect_lines st' =
    effect_lines st ++
    (if negb (in_crit st) && negb (is_damage (rstrip raw))
        && negb (is_crit (rstrip raw)) && accumulates (rstrip raw)
     then [rstrip raw] else []) /\
  crit_lines st' =
    crit_lines st ++
    (if is_damage (rstrip raw) then []
     else if is_crit (rstrip raw) then crit_text (rstrip raw)
     else if in_crit st && accumulates (rstrip raw) then [rstrip raw] else []).
Proof.
  unfold is_header, is_damage, is_crit, accumulates, crit_text, step, has_spell.
  intros Hh Hs. rewrite Hh. cbv zeta.
  destruct (startswith damage_marker (rstrip raw)).
  { cbn [spells current_spell in_crit effect_lines crit_lines negb andb].
    rewrite !andb_false_r, orb_false_r, !app_nil_r. repeat split. exact Hs. }
  destruct (startswith crit_marker (rstrip raw)).
  { cbn [spells current_spell in_crit effect_lines crit_lines negb andb].
    rewrite orb_true_r, !andb_false_r, app_nil_r.
    repeat split; [exact Hs|].
    destruct (truthy (strip (replace crit_marker [] (rstrip raw))));
      now rewrite ?app_nil_r. }
  rewrite Hs. cbn [andb negb]. rewrite orb_false_r, !andb_true_r.
  destruct (truthy (rstrip raw) && negb (startswith separator_marker (rstrip raw))).
  - destruct (in_crit st) eqn:Ei;
      cbn [spells current_spell in_crit effect_lines crit_lines negb andb];
      rewrite ?app_nil_r; repeat split; assumption.
  - rewrite !andb_false_r, !app_nil_r. repeat split; assumption.
Qed.

Lemma fold_step_in_crit {L : Lower} (body : list pystr) (st : state) :
  Forall (fun raw => is_header raw = false) body ->
  has_spell st = true -> in_crit st = true ->
  let st' := fold_left step body st in
  spells st' = spells st /\ current_spell st' = current_spell st /\
  current_spell st' = current_spell st /\
  effect_lines st' = effect_lines st /\
  crit_lines st' =
    crit_lines st ++ flat_map crit_part (List.map rstrip body).
Proof.
  intros Hb. revert st. induction Hb as [|raw body Hr Hb IH]; intros st Hs Hc.
  - cbn. now rewrite app_nil_r.
  - cbn [fold_left List.map flat_map].
    destruct (step_body st raw Hr Hs) as (E1 & E2 & E3 & E4 & E5 & E6).
    rewrite Hc in E4, E5, E6. cbn [orb negb andb] in E4, E5.
    rewrite app_nil_r in E5.
    destruct (IH (step st raw) E3 E4) as (F1 & F2 & _ & F4 & F5).
    cbv zeta. rewrite F1, F2, F4, F5, E1, E2, E5, E6.
    repeat split. now rewrite <- app_assoc.
Qed.

Lemma fold_step_block {L : Lower} (body : list pystr) (st : state) :
  Forall (fun raw => is_header raw = false) body ->
  has_spell st = true -> in_crit st = false ->
  let st' := fold_left step body st in
  spells st' = spells st /\ current_spell st' = current_spell st /\
  effect_lines st' =
    effect_lines st ++ block_effect_lines (List.map rstrip body) /\
  crit_lines st' =
    crit_lines st ++ block_crit_lines (List.map rstrip body).
Proof.
  intros Hb. revert st. induction Hb as [|raw body Hr Hb IH]; intros st Hs Hc.
  - cbn. now rewrite !app_nil_r.
  - cbn [fold_left List.map].
    destruct (step_body st raw Hr Hs) as (E1 & E2 & E3 & E4 & E5 & E6).
    rewrite Hc in E4, E5, E6. cbn [orb negb andb] in E4, E5, E6.
    unfold block_effect_lines, block_crit_lines.
    cbn [before_crit from_crit].
    destruct (is_crit (rstrip raw)) eqn:Ecrit.
    + pose proof (crit_not_damage _ Ecrit) as Edam. rewrite Edam in *.
      cbn [negb andb] in E4, E5, E6. rewrite app_nil_r in E5.
      destruct (fold_step_in_crit body (step st raw) Hb E3 E4)
        as (F1 & F2 & _ & F4 & F5).
      cbv zeta. rewrite F1, F2, F4, F5, E1, E2, E5, E6.
      cbn [filter flat_map]. rewrite app_nil_r, <- app_assoc.
      repeat split. f_equal.
      unfold crit_part. now rewrite Edam, Ecrit.
    + rewrite andb_false_r in E4. cbn [andb] in E5.
      destruct (IH (step st raw) E3 E4) as (F1 & F2 & F3 & F4).
      cbv zeta. rewrite F1, F2, F3, F4, E1, E2, E5, E6.
      unfold block_effect_lines, block_crit_lines. cbn [filter].
      rewrite andb_true_r.
      destruct (is_damage (rstrip raw)); cbn [negb andb];
        rewrite ?app_nil_r, <- ?app_assoc; repeat split.
      now destruct (accumulates (rstrip raw)).
Qed.

(** A header always names a spell. *)
Lemma header_name_nonempty (raw : pystr) :
  is_header raw = true -> strip (skipn 3 (rstrip raw)) <> [].
Proof.
  unfold is_header. intros Hh.
  pose proof (rstrip_idempotent raw) as Hi.
  change header_marker with [35; 35; 32]%N in Hh.
  destruct (rstrip raw) as [|a [|b [|c t]]]; cbn [startswith] in Hh;
    rewrite ?andb_false_r in Hh; try discriminate.
  apply andb_true_iff in Hh as [Ha Hh].
  apply andb_true_iff in Hh as [Hb Hh]. rewrite andb_true_r in Hh.
  apply N.eqb_eq in Ha, Hb, Hh. subst a b c.
  cbn [skipn]. apply strip_nonempty. intros Ht.
  change ([35; 35; 32] ++ t)%N with ([35; 35; 32]%N ++ t) in Hi.
  change (35 :: 35 :: 32 :: t)%N with ([35; 35; 32]%N ++ t) in Hi.
  rewrite rstrip_app, Ht in Hi. discriminate.
Qed.

Lemma step_header {L : Lower} (st : state) (raw : pystr) :
  is_header raw = true ->
  step st raw =
  {| spells := save st;
     current_spell := Some (strip (skipn 3 (rstrip raw)));
     current_damage := None;
     effect_lines := []; crit_lines := []; in_crit := false |}.
Proof. unfold is_header, step. now intros ->. Qed.

(** The record that [save] stores once the lines of a block are read. *)
Lemma save_block {L : Lower} (st0 : state) (header : pystr) (body : list pystr) :
  is_header header = true ->
  Forall (fun raw => is_header raw = false) body ->
  exists spell,
    dict_get (lower (strip (skipn 3 (rstrip header))))
      (save (fold_left step body (step st0 header))) = Some spell /\
    name spell = strip (skipn 3 (rstrip header)) /\
    effect spell
    = strip (join newline (block_effect_lines (List.map rstrip body))) /\
    crit spell
    = strip (join newline (block_crit_lines (List.map rstrip body))).
Proof.
  intros Hh Hb.
  assert (Hs : has_spell (step st0 header) = true).
  { rewrite (step_header st0 header Hh). unfold has_spell. cbn [current_spell].
    apply truthy_true. now apply header_name_nonempty. }
  assert (Hc : in_crit (step st0 header) = false)
    by now rewrite (step_header st0 header Hh).
  destruct (fold_step_block body (step st0 header) Hb Hs Hc)
    as (_ & E2 & E3 & E4).
  cbv zeta in *.
  assert (F2 : current_spell (step st0 header)
               = Some (strip (skipn 3 (rstrip header))))
    by now rewrite (step_header st0 header Hh).
  assert (F3 : effect_lines (step st0 header) = [])
    by now rewrite (step_header st0 header Hh).
  assert (F4 : crit_lines (step st0 header) = [])
    by now rewrite (step_header st0 header Hh).
  rewrite F2 in E2. rewrite F3 in E3. rewrite F4 in E4. cbn [app] in E3, E4.
  unfold save. rewrite E2.
  rewrite (proj2 (truthy_true _) (header_name_nonempty header Hh)).
  rewrite dict_get_set_same. eexists. split; [reflexivity|].
  cbn [name effect crit]. now rewrite E3, E4.
Qed.

Definition fireball_text : pystr :=
  str "## Fireball" ++ newline ++
  str "**Damage Base:** Fire" ++ newline ++
  str "Burns the target." ++ newline ++
  str "**Crit:** Also burns the ground." ++ newline ++
  str "**Damage Base:** Fire" ++ newline ++
  str "It spreads.".

(** A damage line is a non-empty line that is not a separator, and it
    reaches neither the effect nor the crit text. *)
Lemma damage_line_not_accumulated :
  claimed_effect_lines (split newline fireball_text)
  = [str "## Fireball"; str "**Damage Base:** Fire"; str "Burns the target."] /\
  claimed_effect_lines (tl (split newline fireball_text))
  = [str "**Damage Base:** Fire"; str "Burns the target."] /\
  claimed_crit_lines (tl (split newline fireball_text))
  = [str "Also burns the ground."; str "**Damage Base:** Fire"; str "It spreads."] /\
  parse_source_spells (L := ascii_lower) fireball_text
  = [(str "fireball",
      {| name := str "Fireball"; damage := Some (str "fire");
         effect := str "Burns the target.";
         crit := str "Also burns the ground." ++ newline ++ str "It spreads." |})].
Proof.
  split; [|split; [|split]]; vm_compute; reflexivity.
Qed.

(** C5.  In a block, that is after a header and up to the next one, the
    lines without their trailing whitespace go to two buffers: the lines
    before the first crit marker line that are non-empty, not separators and
    not damage lines go to the effect lines; from the first marker line on,
    a marker line gives its own text when it has some, and the other
    non-empty lines that are not separators and not damage lines go to the
    crit lines.  A header empties both buffers and leaves the crit mode.
    The record saved for the block, at the next header or at the end of the
    text, joins each buffer with line feeds and trims it. *)
Theorem block_accumulation {L : Lower} :
  (forall st body,
      has_spell st = true -> in_crit st = false ->
      effect_lines st = [] -> crit_lines st = [] ->
      Forall (fun raw => is_header raw = false) body ->
      effect_lines (fold_left step body st)
      = block_effect_lines (List.map rstrip body) /\
      crit_lines (fold_left step body st)
      = block_crit_lines (List.map rstrip body) /\
      current_spell (fold_left step body st) = current_spell st) /\
  (forall st raw,
      is_header raw = true ->
      effect_lines (step st raw) = [] /\ crit_lines (step st raw) = [] /\
      in_crit (step st raw) = false /\ has_spell (step st raw) = true) /\
  (forall before header body next,
      is_header header = true ->
      Forall (fun raw => is_header raw = false) body ->
      is_header next = true ->
      exists spell,
        dict_get (lower (strip (skipn 3 (rstrip header))))
          (spells (fold_left step (before ++ header :: body ++ [next]) initial))
        = Some spell /\
        name spell = strip (skipn 3 (rstrip header)) /\
        effect spell
        = strip (join newline (block_effect_lines (List.map rstrip body))) /\
        crit spell
        = strip (join newline (block_crit_lines (List.map rstrip body)))) /\
  (forall before header body,
      is_header header = true ->
      Forall (fun raw => is_header raw = false) body ->
      exists spell,
        dict_get (lower (strip (skipn 3 (rstrip header))))
          (parse_lines (before ++ header :: body)) = Some spell /\
        name spell = strip (skipn 3 (rstrip header)) /\
        effect spell
        = strip (join newline (block_effect_lines (List.map rstrip body))) /\
        crit spell
        = strip (join newline (block_crit_lines (List.map rstrip body)))).
Proof.
  split; [|split; [|split]].
  - intros st body Hs Hc He Hk Hb.
    destruct (fold_step_block body st Hb Hs Hc) as (_ & E2 & E3 & E4).
    cbv zeta in *. rewrite E3, E4, He, Hk. now repeat split.
  - intros st raw Hh. rewrite (step_header st raw Hh).
    repeat split. unfold has_spell. cbn [current_spell].
    apply truthy_true. now apply header_name_nonempty.
  - intros before header body next Hh Hb Hn.
    rewrite fold_left_app. cbn [fold_left].
    rewrite fold_left_app. cbn [fold_left].
    rewrite (step_header _ next Hn). cbn [spells].
    now apply save_block.
  - intros before header body Hh Hb.
    unfold parse_lines. rewrite fold_left_app. cbn [fold_left].
    now apply save_block.
Qed.

Definition fireball_body : list pystr :=
  [str "**Damage Base:** Fire"; str "Burns the target.";
   str "**Crit:** Also burns the ground."; str "**Damage Base:** Fire";
   str "It spreads."].

Lemma block_accumulation_witness :
  exists spell,
    dict_get (lower (Lower := ascii_lower)
                (strip (skipn 3 (rstrip (str "## Fireball")))))
      (parse_lines (L := ascii_lower) ([] ++ str "## Fireball" :: fireball_body))
    = Some spell /\
    name spell = strip (skipn 3 (rstrip (str "## Fireball"))) /\
    effect spell
    = strip (join newline (block_effect_lines (List.map rstrip fireball_body))) /\
    crit spell
    = strip (join newline (block_crit_lines (List.map rstrip fireball_body))).
Proof.
  apply (proj2 (proj2 (proj2 (block_accumulation (L := ascii_lower))))).
  - vm_compute. reflexivity.
  - unfold fireball_body.
    repeat (apply Forall_cons; [vm_compute; reflexivity|]).
    apply Forall_nil.
Defined.

(** *** Lines outside a block, the damage field, the parsed records *)

Lemma step_not_header {L : Lower} (st : state) (raw : pystr) :
  is_header raw = false ->
  spells (step st raw) = spells st /\
  current_spell (step st raw) = current_spell st /\
  current_damage (step st raw) =
    if is_damage (rstrip raw)
    then Some (if eqb (strip (replace damage_marker [] (rstrip raw))) (str "-")
               then []
               else lower (strip (replace damage_marker [] (rstrip raw))))
    else current_damage st.
Proof.
  unfold is_header, is_damage, step. intros ->. cbv zeta.
  destruct (startswith damage_marker (rstrip raw)); [now repeat split|].
  destruct (startswith crit_marker (rstrip raw)); [now repeat split|].
  destruct (has_spell st && truthy (rstrip raw)
            && negb (startswith separator_marker (rstrip raw)));
    [|now repeat split].
  destruct (in_crit st); now repeat split.
Qed.

Lemma fold_not_header {L : Lower} (lines : list pystr) (st : state) :
  Forall (fun raw => is_header raw = false) lines ->
  spells (fold_left step lines st) = spells st /\
  current_spell (fold_left step lines st) = current_spell st.
Proof.
  intros Hl. revert st. induction Hl as [|raw lines Hr _ IH]; intros st.
  - now split.
  - cbn [fold_left]. destruct (IH (step st raw)) as [E1 E2].
    destruct (step_not_header st raw Hr) as (F1 & F2 & _).
    rewrite E1, E2, F1, F2. now split.
Qed.



(** The damage written on a damage line: empty for the dash, lower-cased
    otherwise. *)
Definition damage_of {L : Lower} (line : pystr) : pystr :=
  if eqb (strip (replace damage_marker [] line)) (str "-") then []
  else lower (strip (replace damage_marker [] line)).

Lemma fold_no_damage {L : Lower} (lines : list pystr) (st : state) :
  Forall (fun raw => is_header raw = false /\ is_damage (rstrip raw) = false)
    lines ->
  current_damage (fold_left step lines st) = current_damage st.
Proof.
  intros Hl. revert st. induction Hl as [|raw lines [Hr Hd] _ IH]; intros st.
  - reflexivity.
  - cbn [fold_left]. rewrite IH.
    destruct (step_not_header st raw Hr) as (_ & _ & F3).
    now rewrite F3, Hd.
Qed.

(** X17.  The damage of a spell.  The record saved for a block has no damage
    when the block has no damage line; otherwise it has the damage of the
    last damage line of the block, which is the empty string when the line
    gives a dash and the lower-cased text otherwise. *)
Theorem block_damage {L : Lower} (before : list pystr) (header : pystr) :
  is_header header = true ->
  (forall body,
      Forall (fun raw => is_header raw = false /\ is_damage (rstrip raw) = false)
        body ->
      exists spell,
        dict_get (lower (strip (skipn 3 (rstrip header))))
          (parse_lines (before ++ header :: body)) = Some spell /\
        damage spell = None) /\
  (forall body line rest,
      Forall (fun raw => is_header raw = false) body ->
      is_header line = false -> is_damage (rstrip line) = true ->
      Forall (fun raw => is_header raw = false /\ is_damage (rstrip raw) = false)
        rest ->
      exists spell,
        dict_get (lower (strip (skipn 3 (rstrip header))))
          (parse_lines (before ++ header :: body ++ line :: rest)) = Some spell /\
        damage spell = Some (damage_of (rstrip line))).
Proof.
  intros Hh.
  assert (Hsave : forall lines d,
             Forall (fun raw => is_header raw = false) lines ->
             current_damage
               (fold_left step lines (step (fold_left step before initial) header))
             = d ->
             exists spell,
               dict_get (lower (strip (skipn 3 (rstrip header))))
                 (parse_lines (before ++ header :: lines)) = Some spell /\
               damage spell = d).
  { intros lines d Hl Hd. unfold parse_lines.
    rewrite fold_left_app. cbn [fold_left].
    set (st1 := step (fold_left step before initial) header) in *.
    destruct (fold_not_header lines st1 Hl) as [_ E2].
    assert (F2 : current_spell st1 = Some (strip (skipn 3 (rstrip header))))
      by (unfold st1; now rewrite (step_header _ header Hh)).
    unfold save. rewrite E2, F2.
    rewrite (proj2 (truthy_true _) (header_name_nonempty header Hh)).
    rewrite dict_get_set_same. eexists. split; [reflexivity|]. exact Hd. }
  split.
  - intros body Hb. apply Hsave.
    + eapply Forall_impl; [|exact Hb]. now intros raw [H _].
    + rewrite (fold_no_damage body _ Hb).
      now rewrite (step_header _ header Hh).
  - intros body line rest Hb Hl Hd Hr. apply Hsave.
    + apply Forall_app. split; [assumption|].
      constructor; [assumption|].
      eapply Forall_impl; [|exact Hr]. now intros raw [H _].
    + rewrite fold_left_app. cbn [fold_left].
      rewrite (fold_no_damage rest _ Hr).
      destruct (step_not_header
                  (fold_left step body
                     (step (fold_left step before initial) header)) line Hl)
        as (_ & _ & F3).
      now rewrite F3, Hd.
Qed.

Lemma block_damage_witness :
  (exists spell,
      dict_get (lower (Lower := ascii_lower)
                  (strip (skipn 3 (rstrip (str "## Ward")))))
        (parse_lines (L := ascii_lower) ([] ++ str "## Ward" :: [str "Protects."]))
      = Some spell /\ damage spell = None) /\
  (exists spell,
      dict_get (lower (Lower := ascii_lower)
                  (strip (skipn 3 (rstrip (str "## Ward")))))
        (parse_lines (L := ascii_lower)
           ([] ++ str "## Ward" :: [str "**Damage Base:** Fire"]
               ++ str "**Damage Base:** -" :: [str "Protects."]))
      = Some spell /\
      damage spell
      = Some (damage_of (L := ascii_lower) (rstrip (str "**Damage Base:** -")))).
Proof.
  destruct (block_damage (L := ascii_lower) [] (str "## Ward") eq_refl)
    as [H1 H2].
  split.
  - apply H1. repeat (apply Forall_cons; [split; vm_compute; reflexivity|]).
    apply Forall_nil.
  - apply H2; try (vm_compute; reflexivity).
    + repeat (apply Forall_cons; [vm_compute; reflexivity|]). apply Forall_nil.
    + repeat (apply Forall_cons; [split; vm_compute; reflexivity|]).
      apply Forall_nil.
Defined.

(** *** The spell comparator *)

Lemma normalize_text_same (text : pystr) :
  normalize_text text = Perks.normalize_text text.
Proof. reflexivity. Qed.


Lemma spell_effect_issues_nil (src : spell) (gen_system : generated) :
  effect_issues src gen_system = [] <->
  normalize_text (effect src) = normalize_text (get (g_effect gen_system)).
Proof.
  unfold effect_issues.
  destruct (eqb (normalize_text (effect src))
              (normalize_text (get (g_effect gen_system)))) eqn:E; cbn [negb].
  - apply eqb_eq in E. tauto.
  - apply eqb_neq in E. split; [discriminate | congruence].
Qed.



Definition ward_source : dict spell :=
  [(str "ward",
    {| name := str "Ward"; damage := Some [];
       effect := str "Protects the target."; crit := str "Twice as long." |})].

Definition ward_generated : generated :=
  {| g_name := str "Ward"; g_damageType := None;
     g_effect := Some (str "<p>Protects  the target.</p>");
     g_critEffect := Some (str "Twice as long. ") |}.




Definition plain_generated : generated :=
  {| g_name := str "Mend"; g_damageType := Some [];
     g_effect := Some (str "Repairs an item."); g_critEffect := None |}.


(** X21.  Markup around the effect.  A generated effect that is the source
    effect between an opening and a closing tag passes the effect check,
    when the source effect holds no [<]. *)
Theorem wrapped_effect_passes (src : spell) (gen_system : generated)
  (open_tag close_tag : pystr) :
  ~ In 60%N (effect src) ->
  open_tag <> [] -> ~ In 62%N open_tag ->
  close_tag <> [] -> ~ In 62%N close_tag ->
  g_effect gen_system
  = Some (str "<" ++ open_tag ++ str ">" ++ effect src
          ++ str "<" ++ close_tag ++ str ">") ->
  effect_issues src gen_system = [].
Proof.
  intros Hs Ho1 Ho2 Hc1 Hc2 Hg. apply spell_effect_issues_nil.
  rewrite Hg. cbn [get]. rewrite !normalize_text_same.
  rewrite !PerksSpec.normalize_text_words. unfold PerksSpec.normal_words.
  change (str "<" ++ open_tag ++ str ">" ++ effect src
          ++ str "<" ++ close_tag ++ str ">")
    with ([] ++ 60%N :: open_tag ++ 62%N :: effect src
          ++ 60%N :: close_tag ++ 62%N :: []).
  rewrite PerksSpec.remove_tags_span by (auto; intros []).
  rewrite PerksSpec.remove_tags_span by assumption.
  rewrite <- (app_nil_r (effect src)) at 1.
  rewrite PerksSpec.remove_tags_plain by assumption.
  reflexivity.
Qed.

Lemma wrapped_effect_passes_witness :
  effect_issues
    {| name := str "Ward"; damage := Some [];
       effect := str "Protects the target."; crit := [] |}
    {| g_name := str "Ward"; g_damageType := None;
       g_effect := Some (str "<" ++ str "p class=x" ++ str ">"
                         ++ str "Protects the target."
                         ++ str "<" ++ str "/p" ++ str ">");
       g_critEffect := None |} = [].
Proof.
  apply (wrapped_effect_passes
           {| name := str "Ward"; damage := Some [];
              effect := str "Protects the target."; crit := [] |}
           _ (str "p class=x") (str "/p"));
    try discriminate; try reflexivity;
    vm_compute; intuition discriminate.
Defined.

(** *** Unmatched entries *)

Lemma spell_names_mem {L : Lower} (spells_dir : directory) (key : pystr) :
  mem key (generated_names spells_dir) = false <->
  forall filename generated,
    In (filename, generated) spells_dir -> endswith json_suffix filename = true ->
    lower (g_name generated) <> key.
Proof.
  unfold generated_names. rewrite mem_set_of, mem_false, in_flat_map. split.
  - intros Hn filename generated Hin Hj E. apply Hn.
    exists (filename, generated). split; [assumption|].
    cbn [fst snd]. rewrite Hj. now left.
  - intros H ([filename generated] & Hin & Hk). cbn [fst snd] in Hk.
    destruct (endswith json_suffix filename) eqn:Hj; [|destruct Hk].
    destruct Hk as [Hk|[]]. exact (H filename generated Hin Hj Hk).
Qed.

(** X22.  The two kinds of unmatched entries.  A file is reported as not
    in the source exactly when it is a [.json] file of the directory whose
    lower-cased name is no key of the source; then none of its fields is
    compared.  A source record is reported as missing exactly when no
    [.json] file of the directory has its key as lower-cased name. *)
Theorem unmatched_spells {L : Lower} (source : dict spell) (spells_dir : directory) :
  (forall item file,
      In (NotInSource item file) (compare_spells source spells_dir) <->
      endswith json_suffix file = true /\
      exists generated,
        dict_get file spells_dir = Some generated /\ g_name generated = item /\
        dict_get (lower item) source = None) /\
  (forall item,
      In (Missing item) (compare_spells source spells_dir) <->
      exists key record,
        In (key, record) source /\ name record = item /\
        forall filename generated,
          In (filename, generated) spells_dir ->
          endswith json_suffix filename = true ->
          lower (g_name generated) <> key).
Proof.
  split.
  - intros item file. unfold compare_spells. rewrite in_app_iff, in_flat_map. split.
    + intros [(filename & Hf & Hin)|Hm].
      * unfold compare_file in Hin.
        destruct (endswith json_suffix filename) eqn:Hj; [|destruct Hin].
        cbn [negb] in Hin.
        destruct (dict_get filename spells_dir) as [generated|] eqn:Hg;
          [|destruct Hin].
        destruct (dict_get (lower (g_name generated)) source) as [src|] eqn:Hs.
        -- destruct (damage_issues src generated ++ effect_issues src generated ++ crit_issues src generated) in Hin;
             [destruct Hin | destruct Hin as [Hin|[]]; discriminate].
        -- destruct Hin as [Hin|[]]. injection Hin as <- <-.
           split; [assumption|]. now exists generated.
      * unfold missing in Hm. apply in_flat_map in Hm as (e & _ & He).
        destruct (negb _); [destruct He as [He|[]]; discriminate | destruct He].
    + intros (Hj & generated & Hg & <- & Hs). left. exists file. split.
      * rewrite sorted_In. apply dict_get_In in Hg. unfold keys.
        change file with (fst (file, generated)). now apply in_map.
      * unfold compare_file. rewrite Hj, Hg, Hs. now left.
  - intros item. unfold compare_spells. rewrite in_app_iff. split.
    + intros [Hin|Hm].
      * apply in_flat_map in Hin as (filename & _ & Hin).
        unfold compare_file in Hin.
        destruct (negb (endswith json_suffix filename)); [destruct Hin|].
        destruct (dict_get filename spells_dir) as [generated|]; [|destruct Hin].
        destruct (dict_get (lower (g_name generated)) source) as [src|].
        -- destruct (damage_issues src generated ++ effect_issues src generated ++ crit_issues src generated) in Hin;
             [destruct Hin | destruct Hin as [Hin|[]]; discriminate].
        -- destruct Hin as [Hin|[]]. discriminate.
      * unfold missing in Hm. apply in_flat_map in Hm as ([key record] & Hs & He).
        cbn [fst snd] in He.
        destruct (mem key (generated_names spells_dir)) eqn:Em;
          [destruct He|].
        destruct He as [He|[]]. injection He as <-.
        exists key, record. split; [assumption|]. split; [reflexivity|].
        now apply spell_names_mem.
    + intros (key & record & Hs & <- & Hn). right.
      unfold missing. apply in_flat_map. exists (key, record).
      split; [assumption|]. cbn [fst snd].
      rewrite (proj2 (spell_names_mem spells_dir key) Hn). now left.
Qed.

(** *** The parsed spells and the order of the listing *)

Definition clean_spell {L : Lower} (key : pystr) (s : spell) : Prop :=
  key = lower (name s) /\ name s <> [] /\ strip (name s) = name s /\
  strip (effect s) = effect s /\ strip (crit s) = crit s.

Definition clean_state {L : Lower} (st : state) : Prop :=
  (forall key s, In (key, s) (spells st) -> clean_spell key s) /\
  (forall n, current_spell st = Some n -> strip n = n).

Lemma save_clean {L : Lower} (st : state) :
  clean_state st -> forall key s, In (key, s) (save st) -> clean_spell key s.
Proof.
  intros [Hs Hn]. unfold save.
  destruct (current_spell st) as [n|] eqn:En; [|exact Hs].
  destruct (truthy n) eqn:Et; [|exact Hs].
  intros key s Hin. apply dict_set_In in Hin as [Hin|Hin]; [|auto].
  injection Hin as -> ->. unfold clean_spell. cbn [name effect crit].
  split; [reflexivity|]. split; [now apply truthy_true|].
  split; [now apply Hn|]. split; apply strip_idempotent.
Qed.

Lemma step_clean {L : Lower} (st : state) (raw : pystr) :
  clean_state st -> clean_state (step st raw).
Proof.
  intros Hc. destruct (is_header raw) eqn:Hh.
  - rewrite (step_header st raw Hh). split; cbn [spells current_spell].
    + now apply save_clean.
    + intros n [= <-]. apply strip_idempotent.
  - destruct (step_not_header st raw Hh) as (E1 & E2 & _).
    destruct Hc as [Hs Hn]. split; rewrite ?E1, ?E2; assumption.
Qed.

(** X18.  The records of the spell parser.  Every entry is keyed by the
    lower-cased name of its record; the name is not empty and is trimmed,
    and so are the effect and the crit text. *)
Theorem parsed_spells_are_clean {L : Lower} (text key : pystr) (s : spell) :
  dict_get key (parse_source_spells text) = Some s ->
  key = lower (name s) /\ name s <> [] /\ strip (name s) = name s /\
  strip (effect s) = effect s /\ strip (crit s) = crit s.
Proof.
  intros Hg. apply dict_get_In in Hg. revert key s Hg.
  unfold parse_source_spells, parse_lines. apply save_clean.
  generalize (split newline (strip text)). intros lines.
  assert (H : forall st, clean_state st -> clean_state (fold_left step lines st)).
  { induction lines as [|raw lines IH]; intros st Hc; [exact Hc|].
    cbn [fold_left]. now apply IH, step_clean. }
  apply H. split; [intros key s [] | discriminate].
Qed.

Lemma parsed_spells_are_clean_witness :
  str "fireball" = lower (Lower := ascii_lower) (str "Fireball") /\
  str "Fireball" <> [] /\ strip (str "Fireball") = str "Fireball" /\
  strip (str "Burns the target.") = str "Burns the target." /\
  strip (str "Also burns the ground." ++ newline ++ str "It spreads.")
  = str "Also burns the ground." ++ newline ++ str "It spreads.".
Proof.
  apply (parsed_spells_are_clean (L := ascii_lower) fireball_text (str "fireball")
           {| name := str "Fireball"; damage := Some (str "fire");
              effect := str "Burns the target.";
              crit := str "Also burns the ground." ++ newline
                      ++ str "It spreads." |}).
  vm_compute. reflexivity.
Defined.

Lemma spell_names_Permutation {L : Lower} (dir1 dir2 : directory)
  (key : pystr) :
  Permutation dir1 dir2 ->
  mem key (generated_names dir1) = mem key (generated_names dir2).
Proof.
  intros Hp. unfold generated_names. rewrite !mem_set_of.
  apply mem_Permutation. now apply Permutation_flat_map.
Qed.

(** X23.  The order of the listing.  Two listings of the same spell files
    give the same report. *)
Theorem spell_report_independent_of_listing {L : Lower} (source : dict spell)
  (dir1 dir2 : directory) :
  NoDup (keys dir1) -> Permutation dir1 dir2 ->
  compare_spells source dir1 = compare_spells source dir2.
Proof.
  intros Hnd Hp. unfold compare_spells. f_equal.
  - rewrite (sorted_Permutation (keys dir1) (keys dir2))
      by (unfold keys; now apply Permutation_map).
    apply flat_map_ext. intros filename. unfold compare_file.
    now rewrite (dict_get_Permutation filename dir1 dir2 Hnd Hp).
  - unfold missing. apply flat_map_ext. intros entry.
    now rewrite (spell_names_Permutation dir1 dir2 (fst entry) Hp).
Qed.

Lemma spell_report_independent_of_listing_witness :
  compare_spells (L := ascii_lower) ward_source
    [(str "ward.json", ward_generated); (str "mend.json", plain_generated)]
  = compare_spells (L := ascii_lower) ward_source
      [(str "mend.json", plain_generated); (str "ward.json", ward_generated)].
Proof.
  apply (spell_report_independent_of_listing (L := ascii_lower)).
  - cbn [keys List.map fst].
    repeat (constructor;
            [cbn [In]; intros H;
             repeat (destruct H as [H|H]; [discriminate H|]); exact H|]).
    constructor.
  - apply perm_swap.
Defined.

End SpellsSpec.
